(** * crawlab-core: the master node service

    A shallow embedding of [node/service/master_service.go] (with
    [errors/base.go]) and the properties of its lifecycle, its
    self-registration and its monitor loop.

    The Go code talks to three collaborators whose sources are not part of
    the files at hand: the model service and node delegate (the node
    registry), the grpc server (the subscription table and its streams) and
    the wait primitive.  They are modelled from the specification, each
    under a comment that says so; everything else follows the Go text. *)

From Stdlib Require Import ZArith Lia.
From stdpp Require Import base option list strings gmap.

Local Open Scope Z_scope.
Local Open Scope string_scope.
Local Open Scope list_scope.

(** ** Errors *)

Module errors.

(** [errors/base.go] *)
Definition ErrorPrefix := string.

Definition ErrorPrefixController : ErrorPrefix := "controller".
Definition ErrorPrefixModel : ErrorPrefix := "model".
Definition ErrorPrefixFilter : ErrorPrefix := "filter".
Definition ErrorPrefixHttp : ErrorPrefix := "http".

(** [fmt.Sprintf("%s error: %s", prefix, msg)]: the text of the error
    that [NewError] builds. *)
Definition NewError_text (prefix : ErrorPrefix) (msg : string) : string :=
  String.append prefix (String.append " error: " msg).

End errors.

(** A Go [error] value.  Go compares two errors with [==] by identity and
    reads their text with [Error()]; the sentinels the service tests for
    are constructors of their own, every other error carries its text.
    [ErrOther] with the text of a sentinel is a different value with the
    same message. *)
Inductive error : Type :=
| ErrNoDocuments                (* mongo2.ErrNoDocuments *)
| ErrorNodeMonitorError         (* errors.ErrorNodeMonitorError *)
| ErrOther (msg : string).      (* errors.New(msg), any package *)

#[global] Instance error_eq_dec : EqDecision error.
Proof. solve_decision. Defined.

(** [err.Error()] *)
Definition Error (e : error) : string :=
  match e with
  | ErrNoDocuments => "mongo: no documents in result"
  | ErrorNodeMonitorError => errors.NewError_text "node" "monitor error"
  | ErrOther msg => msg
  end.

(** Modelled from the spec: the error kinds of section 7 that the missing
    collaborators raise ([duplicate_key], [subscription_absent],
    [registry_unavailable]); only their being errors other than the two
    sentinels matters. *)
Definition duplicate_key : error := ErrOther "duplicate key".
Definition subscription_absent : error := ErrOther "subscribe not exists".
Definition registry_unavailable : error := ErrOther "registry unavailable".

(** ** Data model *)

(** [time.Time] and [time.Duration], both counted in nanoseconds. *)
Definition Time := Z.
Definition Duration := Z.
Definition Second : Duration := 1000000000.
Definition Millisecond : Duration := 1000000.

(** Modelled from the spec: the status constants of [constants]
    ("status: one of online, offline"). *)
Definition NodeStatusOnline : string := "online".
Definition NodeStatusOffline : string := "offline".

(** [models.Node], with the fields [Register] fills in and the
    registry-assigned id. *)
Record Node : Type := mkNode {
  Id : N;
  Key : string;
  Name : string;
  IsMaster : bool;
  Status : string;
  Enabled : bool;
  Active : bool;
  ActiveTs : Time
}.

#[global] Instance Node_eq_dec : EqDecision Node.
Proof. solve_decision. Defined.

(** [grpc.StreamMessage], as far as the monitor fills it in. *)
Inductive StreamMessageCode : Type := PING | PONG.

Record StreamMessage : Type := mkStreamMessage {
  Code : StreamMessageCode;
  NodeKey : string
}.

(** Modelled from the spec: a stream handle ("a handle supporting
    send(message)": the send is the liveness probe).  [broken] is the
    error every send on the handle returns, [None] for a healthy
    transport; [sent] is what went out, oldest first. *)
Record Stream : Type := mkStream {
  broken : option error;
  sent : list StreamMessage
}.

(** An argument of a log line: a string, the hex form of an id, an
    error. *)
Inductive logarg : Type :=
| ArgS (s : string)
| ArgHex (id : N)
| ArgErr (e : error).

(** What the service writes with [log] and [trace], and the calls it makes
    and returns from, in the order they happen. *)
Inductive event : Type :=
| Infof (format : string) (args : list logarg)
| Errorf (format : string) (args : list logarg)
| PrintError (e : error)          (* trace.PrintError, trace.TraceError *)
| ServerStart                     (* svc.server.Start() *)
| ServerStop                      (* svc.server.Stop() *)
| RegisterBegin                   (* svc.Register() is entered *)
| RegisterEnd (r : option error)  (* svc.Register() returned r *)
| GoMonitor                       (* go svc.Monitor() *)
| WaitReturned                    (* svc.Wait() returned *)
| TickBegin                       (* svc.monitor() is entered *)
| TickEnd (r : option error)      (* svc.monitor() returned r *)
| Sleep (d : Duration).           (* time.Sleep(d) *)

(** ** The world the service runs in *)

(** Modelled from the spec: the node registry (section 4.1).  [rows] are
    the documents, [next_id] the next id the store assigns, and [faults]
    says how the coming registry calls fare: each call takes the head,
    [Some e] makes that call fail with [e] ("registry_unavailable ...
    surfaced from any Registry call"), [None] or an empty schedule lets it
    through. *)
Record Registry : Type := mkRegistry {
  rows : list Node;
  next_id : N;
  faults : list (option error)
}.

(** Modelled from the spec: the stream server (section 4.3) with its
    subscription table, a map from node key to stream. *)
Record Server : Type := mkServer {
  running : bool;
  start_fault : option error;
  subs : gmap string Stream
}.

Record World : Type := mkWorld {
  registry : Registry;
  server : Server;
  now : Time;
  log : list event
}.

Definition set_registry (r : Registry) (w : World) : World :=
  mkWorld r (server w) (now w) (log w).
Definition set_server (s : Server) (w : World) : World :=
  mkWorld (registry w) s (now w) (log w).
Definition set_now (t : Time) (w : World) : World :=
  mkWorld (registry w) (server w) t (log w).
Definition set_log (l : list event) (w : World) : World :=
  mkWorld (registry w) (server w) (now w) l.

(** ** State passing *)

Definition St (A : Type) : Type := World -> A * World.

Definition ret {A} (a : A) : St A := fun w => (a, w).
Definition bind {A B} (m : St A) (k : A -> St B) : St B :=
  fun w => let (a, w') := m w in k a w'.

Declare Scope st_scope.
Delimit Scope st_scope with st.
Notation "x <- m ;; k" := (bind m (fun x => k))
  (at level 100, m at next level, right associativity) : st_scope.
Notation "m ;; k" := (bind m (fun _ => k))
  (at level 100, right associativity) : st_scope.
Local Open Scope st_scope.

Definition emit (e : event) : St unit :=
  fun w => (tt, set_log (log w ++ [e]) w).

(** [time.Now()] *)
Definition time_Now : St Time := fun w => (now w, w).

(** [time.Sleep(d)]: the clock moves on by [d]; a negative or zero
    duration makes it return at once. *)
Definition time_Sleep (d : Duration) : St unit :=
  emit (Sleep d) ;; (fun w => (tt, set_now (now w + Z.max 0 d) w)).

(** [trace.PrintError(err)] *)
Definition trace_PrintError (e : error) : St unit := emit (PrintError e).

(** [trace.TraceError(err)]: prints the error and hands it back. *)
Definition trace_TraceError (e : error) : St (option error) :=
  emit (PrintError e) ;; ret (Some e).

(** ** The node registry *)

Definition set_rows (l : list Node) (r : Registry) : Registry :=
  mkRegistry l (next_id r) (faults r).

(** The head of the fault schedule decides the call that is being made. *)
Definition take_fault : St (option error) :=
  fun w =>
    let r := registry w in
    match faults r with
    | [] => (None, w)
    | f :: fs => (f, set_registry (mkRegistry (rows r) (next_id r) fs) w)
    end.

Definition has_key (key : string) (n : Node) : bool :=
  bool_decide (Key n = key).

(** Modelled from the spec: [get_by_key(key) -> Node | not_found], the
    model service's [GetNodeByKey]; not found is mongo's no-documents
    error. *)
Definition GetNodeByKey (key : string) : St (error + Node) :=
  f <- take_fault ;;
  match f with
  | Some e => ret (inl e)
  | None =>
      fun w =>
        match find (has_key key) (rows (registry w)) with
        | Some n => (inr n, w)
        | None => (inl ErrNoDocuments, w)
        end
  end.

(** Modelled from the spec: [list(filter) -> [Node]], the model service's
    [GetNodeList], for a filter on [is_master]. *)
Definition GetNodeList (is_master : bool) : St (error + list Node) :=
  f <- take_fault ;;
  match f with
  | Some e => ret (inl e)
  | None =>
      fun w =>
        (inr (filter (fun n => IsMaster n = is_master) (rows (registry w))), w)
  end.

Definition with_id (i : N) (n : Node) : Node :=
  mkNode i (Key n) (Name n) (IsMaster n) (Status n) (Enabled n) (Active n)
         (ActiveTs n).

(** Modelled from the spec: [add(node)], the node delegate's [Add]:
    "insert; fails with duplicate_key if key already present".  The stored
    document carries the id the registry assigned; it is handed back where
    Go reads it from the delegate. *)
Definition delegate_Add (n : Node) : St (error + Node) :=
  f <- take_fault ;;
  match f with
  | Some e => ret (inl e)
  | None =>
      fun w =>
        let r := registry w in
        match find (has_key (Key n)) (rows r) with
        | Some _ => (inl duplicate_key, w)
        | None =>
            let n' := with_id (next_id r) n in
            (inr n',
             set_registry (mkRegistry (rows r ++ [n']) (N.succ (next_id r))
                                      (faults r)) w)
        end
  end.

Definition go_online (t : Time) (n : Node) : Node :=
  mkNode (Id n) (Key n) (Name n) (IsMaster n) NodeStatusOnline (Enabled n)
         true t.

Definition go_offline (n : Node) : Node :=
  mkNode (Id n) (Key n) (Name n) (IsMaster n) NodeStatusOffline (Enabled n)
         (Active n) (ActiveTs n).

Definition update_rows (key : string) (f : Node -> Node) (l : list Node)
  : list Node :=
  map (fun n => if has_key key n then f n else n) l.

(** Modelled from the spec: [update_status(key, status)], the verbs of the
    node delegate: "atomic transition; on online, also updates
    active_ts = now and active = true; on offline, leaves active_ts
    untouched". *)
Definition update_status (key : string) (f : Node -> Node) : St (option error) :=
  e <- take_fault ;;
  match e with
  | Some e => ret (Some e)
  | None =>
      fun w =>
        let r := registry w in
        (None, set_registry (set_rows (update_rows key f (rows r)) r) w)
  end.

Definition delegate_UpdateStatusOnline (n : Node) : St (option error) :=
  t <- time_Now ;; update_status (Key n) (go_online t).

Definition delegate_UpdateStatusOffline (n : Node) : St (option error) :=
  update_status (Key n) go_offline.

(** ** The stream server *)

Definition set_subs (m : gmap string Stream) (s : Server) : Server :=
  mkServer (running s) (start_fault s) m.

(** Modelled from the spec: the server's [start()]. *)
Definition server_Start : St (option error) :=
  emit ServerStart ;;
  fun w =>
    let s := server w in
    match start_fault s with
    | Some e => (Some e, w)
    | None => (None, set_server (mkServer true None (subs s)) w)
    end.

(** Modelled from the spec: the server's [stop()], "graceful: stop
    accepting, then close all subscriptions". *)
Definition server_Stop : St (option error) :=
  emit ServerStop ;;
  fun w =>
    (None, set_server (mkServer false (start_fault (server w)) ∅) w).

(** Modelled from the spec: [get_subscribe(node_key) -> Subscription |
    absent].  The subscription is handed out as the key it is filed under:
    the table owns the stream. *)
Definition server_GetSubscribe (key : string) : St (error + string) :=
  fun w =>
    match subs (server w) !! key with
    | Some _ => (inr key, w)
    | None => (inl subscription_absent, w)
    end.

(** Modelled from the spec: [send(message)] on the stream of a
    subscription. *)
Definition stream_Send (sub : string) (msg : StreamMessage) : St (option error) :=
  fun w =>
    let s := server w in
    match subs s !! sub with
    | None => (Some subscription_absent, w)
    | Some st =>
        match broken st with
        | Some e => (Some e, w)
        | None =>
            (None,
             set_server (set_subs (<[sub := mkStream None (sent st ++ [msg])]>
                                     (subs s)) s) w)
        end
    end.

(** ** The master service *)

(** [interfaces.NodeConfigService], as far as the service asks it. *)
Record NodeConfigService : Type := mkNodeConfigService {
  GetNodeKey : string
}.

(** The settings of [MasterService]; the model service and the server it
    points to are the registry and the server of the world. *)
Record MasterService : Type := mkMasterService {
  cfgSvc : NodeConfigService;
  cfgPath : string;
  address : option string;
  monitorInterval : Duration;
  stopOnError : bool
}.

Definition Init (svc : MasterService) : option error := None.

Definition GetConfigService (svc : MasterService) : NodeConfigService :=
  cfgSvc svc.

Definition GetConfigPath (svc : MasterService) : string := cfgPath svc.

Definition SetConfigPath (path : string) (svc : MasterService) : MasterService :=
  mkMasterService (cfgSvc svc) path (address svc) (monitorInterval svc)
                  (stopOnError svc).

Definition GetAddress (svc : MasterService) : option string := address svc.

Definition SetAddress (a : option string) (svc : MasterService) : MasterService :=
  mkMasterService (cfgSvc svc) (cfgPath svc) a (monitorInterval svc)
                  (stopOnError svc).

Definition SetMonitorInterval (duration : Duration) (svc : MasterService)
  : MasterService :=
  mkMasterService (cfgSvc svc) (cfgPath svc) (address svc) duration
                  (stopOnError svc).

Definition StopOnError (svc : MasterService) : MasterService :=
  mkMasterService (cfgSvc svc) (cfgPath svc) (address svc)
                  (monitorInterval svc) true.

(** [Register] *)
Definition Register (svc : MasterService) : St (option error) :=
  let nodeKey := GetNodeKey (GetConfigService svc) in
  r <- GetNodeByKey nodeKey ;;
  match r with
  | inl err =>
      if decide (Error err = Error ErrNoDocuments) then
        (* not exists *)
        emit (Infof "master[%s] does not exist in db" [ArgS nodeKey]) ;;
        t <- time_Now ;;
        let node := mkNode 0 nodeKey nodeKey true NodeStatusOnline true true t in
        a <- delegate_Add node ;;
        match a with
        | inl err => ret (Some err)
        | inr node' =>
            emit (Infof "added master[%s] in db. id: %s"
                        [ArgS nodeKey; ArgHex (Id node')]) ;;
            ret None
        end
      else
        (* error *)
        ret (Some err)
  | inr node =>
      (* exists *)
      emit (Infof "master[%s] exists in db" [ArgS nodeKey]) ;;
      u <- delegate_UpdateStatusOnline node ;;
      match u with
      | Some err => ret (Some err)
      | None =>
          emit (Infof "updated master[%s] in db. id: %s"
                      [ArgS nodeKey; ArgHex (Id node)]) ;;
          ret None
      end
  end.

(** [updateMasterNodeStatus] *)
Definition updateMasterNodeStatus (svc : MasterService) : St (option error) :=
  let nodeKey := GetNodeKey (GetConfigService svc) in
  r <- GetNodeByKey nodeKey ;;
  match r with
  | inl err => ret (Some err)
  | inr node => delegate_UpdateStatusOnline node
  end.

(** [setWorkerNodeOffline] *)
Definition setWorkerNodeOffline (n : Node) : St (option error) :=
  delegate_UpdateStatusOffline n.

(** The body of [for _, n := range nodes] in [monitor]; the result is the
    error flag after the iteration. *)
Definition monitor_node (svc : MasterService) (n : Node) (isErr : bool)
  : St bool :=
  (* subscribe *)
  s <- server_GetSubscribe (Key n) ;;
  match s with
  | inl err =>
      trace_PrintError err ;;
      (* isErr = true *)
      o <- setWorkerNodeOffline n ;;
      match o with
      | Some err => trace_PrintError err ;; ret true
      | None => ret true
      end
  | inr sub =>
      (* PING client *)
      p <- stream_Send sub (mkStreamMessage PING (GetNodeKey (GetConfigService svc))) ;;
      match p with
      | Some err =>
          emit (Errorf "cannot ping worker[%s]: %v" [ArgS (Key n); ArgErr err]) ;;
          (* isErr = true *)
          o <- setWorkerNodeOffline n ;;
          match o with
          | Some err => trace_PrintError err ;; ret true
          | None => ret true
          end
      | None => ret isErr
      end
  end.

Fixpoint monitor_nodes (svc : MasterService) (nodes : list Node) (isErr : bool)
  : St bool :=
  match nodes with
  | [] => ret isErr
  | n :: rest =>
      isErr' <- monitor_node svc n isErr ;;
      monitor_nodes svc rest isErr'
  end.

(** [monitor]: one tick. *)
Definition monitor (svc : MasterService) : St (option error) :=
  (* update master node status in db *)
  u <- updateMasterNodeStatus svc ;;
  match u with
  | Some err => ret (Some err)
  | None =>
      (* all worker nodes *)
      l <- GetNodeList false ;;
      match l with
      | inl err =>
          if decide (err = ErrNoDocuments) then ret None
          else trace_TraceError err
      | inr nodes =>
          isErr <- monitor_nodes svc nodes false ;;
          if isErr then trace_TraceError ErrorNodeMonitorError
          else ret None
      end
  end.

(** [Stop] *)
Definition Stop (svc : MasterService) : St unit :=
  server_Stop ;;
  emit (Infof "master[%s] service has stopped"
              [ArgS (GetNodeKey (GetConfigService svc))]).

(** The body of [for] in [Monitor]: one tick and what follows it.  [true]
    means the loop goes round again, [false] that [Monitor] returned. *)
Definition Monitor_body (svc : MasterService) : St bool :=
  emit TickBegin ;;
  r <- monitor svc ;;
  emit (TickEnd r) ;;
  returned <-
    match r with
    | Some err =>
        trace_PrintError err ;;
        if stopOnError svc then Stop svc ;; ret true else ret false
    | None => ret false
    end ;;
  if (returned : bool) then ret false
  else time_Sleep (monitorInterval svc) ;; ret true.

(** [Monitor]: the loop never ends by itself; [rounds] bounds how many
    times it is let go round.  The result says whether it is still
    running. *)
Fixpoint Monitor (rounds : nat) (svc : MasterService) : St bool :=
  match rounds with
  | O => ret true
  | S k =>
      again <- Monitor_body svc ;;
      if again then Monitor k svc else ret false
  end.

(** ** The master process: [Start] and the goroutine it spawns *)

(** Where the main goroutine stands in [Start]. *)
Inductive main_pc : Type :=
| AtServerStart                 (* svc.server.Start() *)
| AtRegister                    (* svc.Register() *)
| AtGoMonitor                   (* go svc.Monitor() *)
| AtWait                        (* svc.Wait() *)
| AtStop                        (* svc.Stop() *)
| Returned
| Panicked (e : error).

(** The goroutine of [Monitor]. *)
Inductive monitor_pc : Type :=
| NotSpawned
| Looping
| Exited.

Record Process : Type := mkProcess {
  world : World;
  main : main_pc;
  monitor_thread : monitor_pc;
  quit : bool                     (* the quit signal has arrived *)
}.

(** The statement of [Start] at [pc] and where the main goroutine stands
    after it; [None] where there is no statement to run.  [Wait] is
    modelled from the spec ("a signal handler that releases a latch"): it
    returns once the quit signal has arrived, see [step]. *)
Definition Start_step (svc : MasterService) (pc : main_pc) : option (St main_pc) :=
  match pc with
  | AtServerStart =>
      Some (r <- server_Start ;;
            match r with
            | Some err => ret (Panicked err)
            | None => ret AtRegister
            end)
  | AtRegister =>
      Some (emit RegisterBegin ;;
            r <- Register svc ;;
            emit (RegisterEnd r) ;;
            match r with
            | Some err => ret (Panicked err)
            | None => ret AtGoMonitor
            end)
  | AtGoMonitor => Some (emit GoMonitor ;; ret AtWait)
  | AtWait => Some (emit WaitReturned ;; ret AtStop)
  | AtStop => Some (Stop svc ;; ret Returned)
  | Returned | Panicked _ => None
  end.

(** Who moves next: the main goroutine, the monitor goroutine, or the
    outside sending the quit signal. *)
Inductive choice : Type := RunMain | RunMonitor | Signal.

(** One move.  A goroutine that cannot move (blocked in [Wait], not
    spawned, returned) leaves the process as it is.  A round of the
    monitor loop is taken as one move. *)
Definition step (svc : MasterService) (c : choice) (p : Process) : Process :=
  match c with
  | Signal => mkProcess (world p) (main p) (monitor_thread p) true
  | RunMain =>
      match main p, quit p with
      | AtWait, false => p
      | pc, _ =>
          match Start_step svc pc with
          | None => p
          | Some m =>
              let (pc', w') := m (world p) in
              mkProcess w' pc'
                        (match pc with
                         | AtGoMonitor => Looping
                         | _ => monitor_thread p
                         end)
                        (quit p)
          end
      end
  | RunMonitor =>
      match monitor_thread p with
      | Looping =>
          let (again, w') := Monitor_body svc (world p) in
          mkProcess w' (main p) (if again then Looping else Exited) (quit p)
      | NotSpawned | Exited => p
      end
  end.

Definition run (svc : MasterService) (sched : list choice) (p : Process)
  : Process :=
  foldl (fun p c => step svc c p) p sched.

(** The process as [Start] is entered, its log empty. *)
Definition boot (w : World) : Process :=
  mkProcess (set_log [] w) AtServerStart NotSpawned false.

(** ** Construction *)

(** The outcome of the dependency injection in [NewMasterService]: the
    errors of the three [Provide] calls and of [Invoke], and the
    configuration service found for a configuration path. *)
Record Container : Type := mkContainer {
  provide_model : option error;
  provide_config : option error;
  provide_server : option error;
  invoke : option error;
  resolve_config : string -> NodeConfigService
}.

(** [Option]: a function that is run on the service under construction. *)
Definition Option := MasterService -> MasterService.

Section Construction.

(** [config.DefaultConfigPath], a constant of a package that is not at
    hand. *)
Variable DefaultConfigPath : string.

(** [NewMasterService] *)
Definition NewMasterService (c : Container) (opts : list Option)
  : error + MasterService :=
  (* master service *)
  let svc := mkMasterService (mkNodeConfigService "") DefaultConfigPath None
                             (60 * Second) false in
  (* apply options *)
  let svc := foldl (fun s (opt : Option) => opt s) svc opts in
  (* dependency injection *)
  match provide_model c with
  | Some err => inl err
  | None =>
      match provide_config c with
      | Some err => inl err
      | None =>
          match provide_server c with
          | Some err => inl err
          | None =>
              match invoke c with
              | Some err => inl err
              | None =>
                  let svc := mkMasterService (resolve_config c (cfgPath svc))
                                             (cfgPath svc) (address svc)
                                             (monitorInterval svc)
                                             (stopOnError svc) in
                  (* init *)
                  match Init svc with
                  | Some err => inl err
                  | None => inr svc
                  end
              end
          end
      end
  end.

End Construction.

(** Modelled from the spec: the options of the configuration surface
    ("config file path, listen address, monitor_interval, stop_on_error
    flag"), each calling the setter of its name. *)
Definition WithConfigPath (path : string) : Option := SetConfigPath path.
Definition WithAddress (a : string) : Option := SetAddress (Some a).
Definition WithMonitorInterval (d : Duration) : Option := SetMonitorInterval d.
Definition WithStopOnError : Option := StopOnError.

(** [ProvideMasterService] *)
Definition ProvideMasterService (DefaultConfigPath : string) (path : string)
  (opts : list Option) (c : Container) : error + MasterService :=
  let opts := if decide (path = "") then opts else opts ++ [WithConfigPath path] in
  NewMasterService DefaultConfigPath c opts.

(** ** Vocabulary of the properties *)

(** Whether the next registry call goes through: the head of the fault
    schedule, and the world once that call has taken it. *)
Definition next_fault (w : World) : option error :=
  match faults (registry w) with
  | f :: _ => f
  | [] => None
  end.

Definition after_fault (w : World) : World := snd (take_fault w).

(** The world after an accepted status write. *)
Definition written (key : string) (f : Node -> Node) (w : World) : World :=
  let w1 := after_fault w in
  set_registry (set_rows (update_rows key f (rows (registry w1))) (registry w1)) w1.

(** The world after an accepted insert of [n]. *)
Definition inserted (n : Node) (w : World) : World :=
  let w1 := after_fault w in
  let r := registry w1 in
  set_registry (mkRegistry (rows r ++ [with_id (next_id r) n])
                           (N.succ (next_id r)) (faults r)) w1.

(** The node [Register] builds for a master that is not in the registry
    yet, under the id the registry gives it. *)
Definition fresh_master (key : string) (id : N) (t : Time) : Node :=
  mkNode id key key true NodeStatusOnline true true t.

Definition master_key (svc : MasterService) : string :=
  GetNodeKey (GetConfigService svc).

(** What the data model asks of the rows under the master's key before the
    master registers: there is at most one, and it is a master row. *)
Definition master_rows_ok (key : string) (l : list Node) : Prop :=
  (length (filter (fun n => Key n = key) l) <= 1)%nat
  /\ forall n, n ∈ l -> Key n = key -> IsMaster n = true.

(** C2 as it is stated, "running Register() twice against the same
    registry leaves exactly one master row with status online", the master
    rows counted under the master's own key: after two calls that both
    succeed there is one row under the key, a master row that is online. *)
Definition register_twice_one_master : Prop :=
  forall svc w w1 w2,
    Register svc w = (None, w1) ->
    Register svc w1 = (None, w2) ->
    exists m,
      filter (fun n => Key n = master_key svc) (rows (registry w2)) = [m]
      /\ IsMaster m = true /\ Status m = NodeStatusOnline.

(** What the two failure branches of the loop body of [monitor] share:
    the flag goes up, the worker is set offline, an error of that write is
    printed. *)
Definition mark_failed (n : Node) : St bool :=
  o <- setWorkerNodeOffline n ;;
  match o with
  | Some err => trace_PrintError err ;; ret true
  | None => ret true
  end.

(** The heartbeat the master sends. *)
Definition heartbeat (svc : MasterService) : StreamMessage :=
  mkStreamMessage PING (master_key svc).

(** What the probe of [n] finds in [w]: the line the monitor writes when
    the lookup of the subscription or the send on its stream fails, [None]
    when the heartbeat goes out. *)
Definition probe_report (n : Node) (w : World) : option event :=
  match subs (server w) !! Key n with
  | None => Some (PrintError subscription_absent)
  | Some st =>
      match broken st with
      | Some e => Some (Errorf "cannot ping worker[%s]: %v" [ArgS (Key n); ArgErr e])
      | None => None
      end
  end.

Definition probe_ok (n : Node) (w : World) : bool :=
  bool_decide (probe_report n w = None).

(** How many messages have gone out on the stream filed under [key]. *)
Definition pings (key : string) (w : World) : nat :=
  match subs (server w) !! key with
  | Some st => length (sent st)
  | None => 0%nat
  end.

(** The world after a heartbeat has gone out on the stream under [key]. *)
Definition pinged (svc : MasterService) (key : string) (w : World) : World :=
  snd (stream_Send key (heartbeat svc) w).

(** [n] was probed between [w] and [w']: its stream carries one more
    message, or the line of its failed probe was written in between. *)
Definition probed (n : Node) (w w' : World) : Prop :=
  match probe_report n w with
  | None => (pings (Key n) w < pings (Key n) w')%nat
  | Some ev => exists l, log w' = log w ++ l /\ ev ∈ l
  end.

(** Every row under [key] is offline. *)
Definition offline_under (key : string) (w : World) : Prop :=
  forall r, r ∈ rows (registry w) -> Key r = key -> Status r = NodeStatusOffline.

(** The lines [log] and [trace] write. *)
Definition plain_line (e : event) : Prop :=
  match e with
  | Infof _ _ | Errorf _ _ | PrintError _ => True
  | _ => False
  end.

(** C1 as it is stated, "n's status is set to offline within that same
    tick, the tick is flagged as errored, and the loop continues to probe
    the remaining nodes": in a tick that enumerates [pre ++ n :: post], a
    failed probe of [n] leaves every row under the key of [n] offline when
    the tick ends, the tick returns the monitor error, and every node
    after [n] is probed. *)
Definition failed_probe_sets_offline : Prop :=
  forall svc w w1 w2 pre post n,
    updateMasterNodeStatus svc w = (None, w1) ->
    GetNodeList false w1 = (inr (pre ++ n :: post), w2) ->
    probe_ok n w = false ->
    let before := monitor_nodes svc pre false w2 in
    let after := monitor_node svc n before.1 before.2 in
    let out := monitor svc w in
    out.1 = Some ErrorNodeMonitorError
    /\ offline_under (Key n) out.2
    /\ forall m, m ∈ post -> probed m after.2 out.2.

(** What a run of the monitor loop over some nodes may do to the world:
    the transports stay as they are, streams only gain messages, the log
    only grows, rows that are offline stay so, the clock stands. *)
Record advances (w w' : World) : Prop := mkAdvances {
  adv_transport : forall k,
    broken <$> (subs (server w) !! k) = broken <$> (subs (server w') !! k);
  adv_pings : forall k, (pings k w <= pings k w')%nat;
  adv_log : exists l, log w' = log w ++ l
                      /\ Forall plain_line l;
  adv_offline : forall key, offline_under key w -> offline_under key w';
  adv_now : now w' = now w;
  adv_running : running (server w') = running (server w)
}.

(** C3 as it is stated, "a failed refresh of the master's row does not
    end the tick": with [stop_on_error] off, every worker row is still probed in
    that tick. *)
Definition tick_continues_after_failed_refresh : Prop :=
  forall svc w e,
    stopOnError svc = false ->
    (updateMasterNodeStatus svc w).1 = Some e ->
    forall n, n ∈ rows (registry w) -> IsMaster n = false ->
              probed n w (monitor svc w).2.

(** The events by which the main goroutine marks its way through
    [Start]. *)
Definition main_marker (e : event) : Prop :=
  match e with
  | ServerStart | RegisterBegin | RegisterEnd _ | GoMonitor | WaitReturned => True
  | _ => False
  end.

(** Every [b] in [l] has an [a] somewhere before it. *)
Definition precedes (a b : event) (l : list event) : Prop :=
  forall l1 l2, l = l1 ++ b :: l2 -> a ∈ l1.

(** C8 as it is stated, "after stop() the monitor loop exits before the
    next tick": in no run of the process does a tick begin after the server
    has been stopped. *)
Definition no_tick_after_stop : Prop :=
  forall svc w sched l1 l2,
    log (world (run svc sched (boot w))) = l1 ++ ServerStop :: l2 ->
    TickBegin ∉ l2.

(** The order [Start] keeps, read off the log. *)
Record start_order (l : list event) : Prop := mkStartOrder {
  ord_server_register : precedes ServerStart RegisterBegin l;
  ord_register_go : precedes (RegisterEnd None) GoMonitor l;
  ord_go_wait : precedes GoMonitor WaitReturned l;
  ord_go_tick : precedes GoMonitor TickBegin l;
  ord_register_tick : precedes (RegisterEnd None) TickBegin l
}.

(** What holds of the process wherever the goroutines stand. *)
Record start_inv (p : Process) : Prop := mkStartInv {
  inv_order : start_order (log (world p));
  inv_phase :
    match main p with
    | AtServerStart => log (world p) = [] /\ monitor_thread p = NotSpawned
    | AtRegister => log (world p) = [ServerStart] /\ monitor_thread p = NotSpawned
    | AtGoMonitor =>
        RegisterEnd None ∈ log (world p)
        /\ monitor_thread p = NotSpawned
        /\ (GoMonitor ∉ log (world p)) /\ (TickBegin ∉ log (world p))
        /\ (WaitReturned ∉ log (world p))
    | Panicked _ =>
        monitor_thread p = NotSpawned
        /\ (GoMonitor ∉ log (world p)) /\ (TickBegin ∉ log (world p))
        /\ (WaitReturned ∉ log (world p))
    | AtWait => monitor_thread p <> NotSpawned /\ (WaitReturned ∉ log (world p))
    | AtStop => monitor_thread p <> NotSpawned /\ WaitReturned ∈ log (world p)
    | Returned =>
        monitor_thread p <> NotSpawned
        /\ exists l1 l2,
             log (world p) = l1 ++ WaitReturned :: l2 /\ ServerStop ∈ l2
    end;
  inv_spawned :
    monitor_thread p <> NotSpawned ->
    RegisterEnd None ∈ log (world p) /\ GoMonitor ∈ log (world p);
  inv_quit : WaitReturned ∈ log (world p) -> quit p = true
}.

(** C9 as it is stated, "every configured monitor_interval is at least
    one second": a service whose interval is at least a second still has one
    after any call of the setter (the value is taken only if it is large
    enough, or refused). *)
Definition monitor_interval_at_least_1s : Prop :=
  forall d svc,
    Second <= monitorInterval svc ->
    Second <= monitorInterval (SetMonitorInterval d svc).

(** ** Scenarios *)

(** The master [m1] with the default settings. *)
Definition svc_m1 : MasterService :=
  mkMasterService (mkNodeConfigService "m1") "config.json" None (60 * Second)
                  false.

Definition worker (key : string) (id : N) : Node :=
  mkNode id key key false NodeStatusOnline true true 0.

Definition registry_of (l : list Node) (fs : list (option error)) : Registry :=
  mkRegistry l (N.of_nat (S (length l))) fs.

(** An empty registry and a server that has not been started (S1). *)
Definition world_empty : World :=
  mkWorld (registry_of [] []) (mkServer false None ∅) 0 [].

(** The master registered, two workers online: [w1] has no subscription,
    [w2] a healthy stream (S2, S4). *)
Definition world_two_workers (fs : list (option error)) : World :=
  mkWorld (registry_of [fresh_master "m1" 1 0; worker "w1" 2; worker "w2" 3] fs)
          (mkServer true None {[ "w2" := mkStream None [] ]}) 100 [].

(** A run of the process from start to tear-down with one tick while the
    main goroutine waits, and the same run with one more move of the
    monitor goroutine after [Stop]. *)
Definition sched_full : list choice :=
  [RunMain; RunMain; RunMain; RunMonitor; Signal; RunMain; RunMain].

Definition sched_tick_after_stop : list choice :=
  [RunMain; RunMain; RunMain; Signal; RunMain; RunMain; RunMonitor].

(** The events of a log that mark the steps of [Start] and the ticks. *)
Definition milestone (e : event) : bool :=
  match e with
  | ServerStart | RegisterBegin | RegisterEnd _ | GoMonitor | WaitReturned
  | ServerStop | TickBegin => true
  | _ => false
  end.

(** A dependency injection that goes through and finds the configuration
    of [m1]. *)
Definition container_ok : Container :=
  mkContainer None None None None (fun _ => mkNodeConfigService "m1").

(** An error of another package that reads like mongo's no-documents
    error. *)
Definition no_documents_lookalike : error :=
  ErrOther "mongo: no documents in result".

(** The master registered, [w1] on a stream whose transport is broken,
    [w2] on a healthy one (S4). *)
Definition world_broken_stream : World :=
  mkWorld (registry_of [fresh_master "m1" 1 0; worker "w1" 2; worker "w2" 3] [])
          (mkServer true None
             {[ "w1" := mkStream (Some (ErrOther "transport is closing")) [];
                "w2" := mkStream None [] ]})
          100 [].

(** A registry that knows the worker [w1] only, no worker connected
    (S2). *)
Definition world_worker_only : World :=
  mkWorld (registry_of [worker "w1" 1] []) (mkServer false None ∅) 0 [].

Definition statuses (w : World) : list (string * string) :=
  map (fun n => (Key n, Status n)) (rows (registry w)).

(** The registry refuses the fourth call made on it: in a tick, the
    offline write for [w1], after the lookup and the write of the refresh
    and the enumeration. *)
Definition world_offline_refused : World :=
  world_two_workers [None; None; None; Some registry_unavailable].

(** A registry whose only row is a worker row filed under the key of the
    master [m1]. *)
Definition world_worker_under_master_key : World :=
  mkWorld (registry_of [worker "m1" 1] []) (mkServer false None ∅) 0 [].

(** ** Vocabulary of the further properties *)

(** [errors.NewError]: [errors.New] of the formatted text. *)
Definition NewError (prefix : errors.ErrorPrefix) (msg : string) : error :=
  ErrOther (errors.NewError_text prefix msg).

(** How many ticks a log has seen begin and how many sleeps it holds. *)
Definition is_tick (e : event) : bool :=
  match e with TickBegin => true | _ => false end.

Definition is_sleep (e : event) : bool :=
  match e with Sleep _ => true | _ => false end.

Definition tick_count (l : list event) : nat := length (List.filter is_tick l).

Definition sleep_count (l : list event) : nat := length (List.filter is_sleep l).

(** What a status write leaves of a row: its id, key, name, master flag
    and enabled flag. *)
Definition same_identity (r r' : Node) : Prop :=
  Id r' = Id r /\ Key r' = Key r /\ Name r' = Name r
  /\ IsMaster r' = IsMaster r /\ Enabled r' = Enabled r.

(** What a tick may do to a row that is not under the master's key:
    nothing, or set it offline. *)
Definition worker_step (mk : string) (r r' : Node) : Prop :=
  Key r' = Key r /\ (Key r <> mk -> r' = r \/ r' = go_offline r).

(** The nodes a tick enumerates: the non-master rows as they are after the
    refresh of the master's row, none when the refresh or the enumeration
    fails. *)
Definition enumerated (svc : MasterService) (w : World) : list Node :=
  match updateMasterNodeStatus svc w with
  | (None, w1) =>
      match GetNodeList false w1 with
      | (inr nodes, _) => nodes
      | (inl _, _) => []
      end
  | (Some _, _) => []
  end.

(** A stream after [c] heartbeats of the master were tried on it: a healthy
    one has them at its end, a broken one is as it was. *)
Definition heartbeats (svc : MasterService) (c : nat) (st : Stream) : Stream :=
  match broken st with
  | None => mkStream None (sent st ++ repeat (heartbeat svc) c)
  | Some _ => st
  end.

(** The prefixes [errors/base.go] declares. *)
Definition declared_prefix (p : errors.ErrorPrefix) : Prop :=
  p = errors.ErrorPrefixController \/ p = errors.ErrorPrefixModel
  \/ p = errors.ErrorPrefixFilter \/ p = errors.ErrorPrefixHttp.

(** The calls by which the settings of a master service are changed once
    it is built: the setters of [master_service.go]. *)
Inductive setter : Type :=
| CallSetConfigPath (path : string)
| CallSetAddress (a : option string)
| CallSetMonitorInterval (d : Duration)
| CallStopOnError.

Definition call (c : setter) (svc : MasterService) : MasterService :=
  match c with
  | CallSetConfigPath path => SetConfigPath path svc
  | CallSetAddress a => SetAddress a svc
  | CallSetMonitorInterval d => SetMonitorInterval d svc
  | CallStopOnError => StopOnError svc
  end.

Definition calls (l : list setter) (svc : MasterService) : MasterService :=
  foldl (fun s c => call c s) svc l.

Definition is_signal (c : choice) : bool :=
  match c with Signal => true | _ => false end.

(** What holds of a process that set out from [w0] while the main
    goroutine has not got to [Wait]: the server is as [w0] had it, but
    running once its start went through, and nobody has stopped it. *)
Definition early_inv (w0 : World) (p : Process) : Prop :=
  match main p with
  | AtServerStart => server (world p) = server w0
  | AtRegister | AtGoMonitor =>
      start_fault (server w0) = None
      /\ server (world p) = mkServer true None (subs (server w0))
      /\ (ServerStop ∉ log (world p))
  | Panicked e =>
      (ServerStop ∉ log (world p))
      /\ ((start_fault (server w0) = Some e
           /\ server (world p) = server w0
           /\ (RegisterBegin ∉ log (world p)))
          \/ (start_fault (server w0) = None
              /\ server (world p) = mkServer true None (subs (server w0))
              /\ RegisterEnd (Some e) ∈ log (world p)))
  | _ => True
  end.

(** The server is down: not running, no subscription in its table. *)
Definition down (w : World) : Prop :=
  running (server w) = false /\ subs (server w) = ∅.

(** What a stop leaves behind in a process: once the log shows it the
    server is down, and a monitor goroutine that has returned has stopped
    the server itself. *)
Definition stopped_inv (svc : MasterService) (p : Process) : Prop :=
  (ServerStop ∈ log (world p) -> down (world p))
  /\ (monitor_thread p = Exited ->
      stopOnError svc = true /\ ServerStop ∈ log (world p)).

(** A registry that cannot be reached and a server that has not been
    started. *)
Definition world_registry_down : World :=
  mkWorld (mkRegistry [] 1 [Some registry_unavailable])
          (mkServer false None ∅) 0 [].

(** * Properties *)

#[local] Set Warnings "-clear-no-such-hyp".

(** ** Registry facts *)

Lemma registry_set_log l w : registry (set_log l w) = registry w.
Proof. reflexivity. Qed.

Lemma server_set_log l w : server (set_log l w) = server w.
Proof. reflexivity. Qed.

Lemma now_set_log l w : now (set_log l w) = now w.
Proof. reflexivity. Qed.

Lemma registry_set_server s w : registry (set_server s w) = registry w.
Proof. reflexivity. Qed.

Lemma registry_set_now t w : registry (set_now t w) = registry w.
Proof. reflexivity. Qed.

Create Rewrite HintDb world.
#[local] Hint Rewrite registry_set_log server_set_log now_set_log
  registry_set_server registry_set_now : world.

Lemma take_fault_eq w : take_fault w = (next_fault w, after_fault w).
Proof.
  unfold after_fault, next_fault, take_fault.
  destruct (faults (registry w)); reflexivity.
Qed.

Lemma after_fault_rows w : rows (registry (after_fault w)) = rows (registry w).
Proof.
  unfold after_fault, take_fault. destruct (faults (registry w)); reflexivity.
Qed.

Lemma after_fault_server w : server (after_fault w) = server w.
Proof.
  unfold after_fault, take_fault. destruct (faults (registry w)); reflexivity.
Qed.

Lemma after_fault_now w : now (after_fault w) = now w.
Proof.
  unfold after_fault, take_fault. destruct (faults (registry w)); reflexivity.
Qed.

Lemma after_fault_log w : log (after_fault w) = log w.
Proof.
  unfold after_fault, take_fault. destruct (faults (registry w)); reflexivity.
Qed.

Lemma after_fault_next_id w :
  next_id (registry (after_fault w)) = next_id (registry w).
Proof.
  unfold after_fault, take_fault. destruct (faults (registry w)); reflexivity.
Qed.

Lemma has_key_true key n : has_key key n = true <-> Key n = key.
Proof. unfold has_key. apply bool_decide_eq_true. Qed.

Lemma has_key_false key n : has_key key n = false <-> Key n <> key.
Proof. unfold has_key. apply bool_decide_eq_false. Qed.

Lemma find_has_key_None key l :
  find (has_key key) l = None <-> filter (fun n => Key n = key) l = [].
Proof.
  induction l as [|a l IH]; simpl; [done|].
  rewrite filter_cons. destruct (has_key key a) eqn:E.
  - apply has_key_true in E. rewrite decide_True by done. split; discriminate.
  - apply has_key_false in E. rewrite decide_False by done. exact IH.
Qed.

Lemma find_has_key_Some key l n :
  find (has_key key) l = Some n -> n ∈ l /\ Key n = key.
Proof.
  intros H. apply find_some in H as [Hin Hk].
  split; [by apply list_elem_of_In | by apply has_key_true].
Qed.

Lemma go_online_Key t n : Key (go_online t n) = Key n.
Proof. reflexivity. Qed.

Lemma go_offline_Key n : Key (go_offline n) = Key n.
Proof. reflexivity. Qed.

(** A status write keeps every row in its place and under its key. *)
Lemma update_rows_filter key key' f l :
  (forall n, Key (f n) = Key n) ->
  filter (fun n => Key n = key') (update_rows key f l)
  = update_rows key f (filter (fun n => Key n = key') l).
Proof.
  intros Hf. unfold update_rows.
  induction l as [|a l IH]; simpl; [done|].
  rewrite !filter_cons.
  assert (Hk : Key (if has_key key a then f a else a) = Key a)
    by (destruct (has_key key a); [apply Hf | done]).
  rewrite Hk. destruct (decide (Key a = key')); simpl; by rewrite IH.
Qed.

Lemma update_rows_length key f l : length (update_rows key f l) = length l.
Proof. unfold update_rows. apply length_map. Qed.

Lemma update_rows_lookup key f l i :
  update_rows key f l !! i
  = (fun n => if has_key key n then f n else n) <$> l !! i.
Proof. unfold update_rows. apply list_lookup_fmap. Qed.

#[local] Hint Rewrite after_fault_rows after_fault_server after_fault_now
  after_fault_next_id : world.

Lemma GetNodeByKey_eq key w :
  GetNodeByKey key w
  = match next_fault w with
    | Some e => (inl e, after_fault w)
    | None =>
        match find (has_key key) (rows (registry w)) with
        | Some n => (inr n, after_fault w)
        | None => (inl ErrNoDocuments, after_fault w)
        end
    end.
Proof.
  unfold GetNodeByKey, bind. rewrite take_fault_eq.
  destruct (next_fault w); [reflexivity|].
  rewrite after_fault_rows. reflexivity.
Qed.

Lemma GetNodeList_eq m w :
  GetNodeList m w
  = match next_fault w with
    | Some e => (inl e, after_fault w)
    | None =>
        (inr (filter (fun n => IsMaster n = m) (rows (registry w))),
         after_fault w)
    end.
Proof.
  unfold GetNodeList, bind. rewrite take_fault_eq.
  destruct (next_fault w); [reflexivity|].
  rewrite after_fault_rows. reflexivity.
Qed.

Lemma update_status_eq key f w :
  update_status key f w
  = match next_fault w with
    | Some e => (Some e, after_fault w)
    | None => (None, written key f w)
    end.
Proof.
  unfold update_status, bind. rewrite take_fault_eq.
  destruct (next_fault w); reflexivity.
Qed.

Lemma written_rows key f w :
  rows (registry (written key f w)) = update_rows key f (rows (registry w)).
Proof. unfold written. simpl. by rewrite after_fault_rows. Qed.

Lemma written_server key f w : server (written key f w) = server w.
Proof. unfold written. simpl. apply after_fault_server. Qed.

Lemma written_now key f w : now (written key f w) = now w.
Proof. unfold written. simpl. apply after_fault_now. Qed.

Lemma written_log key f w : log (written key f w) = log w.
Proof. unfold written. simpl. apply after_fault_log. Qed.

Lemma delegate_Add_eq n w :
  delegate_Add n w
  = match next_fault w with
    | Some e => (inl e, after_fault w)
    | None =>
        match find (has_key (Key n)) (rows (registry w)) with
        | Some _ => (inl duplicate_key, after_fault w)
        | None => (inr (with_id (next_id (registry w)) n), inserted n w)
        end
    end.
Proof.
  unfold delegate_Add, bind. rewrite take_fault_eq.
  destruct (next_fault w); [reflexivity|].
  rewrite after_fault_rows.
  destruct (find _ _); [reflexivity|].
  unfold inserted. simpl. by rewrite after_fault_rows, after_fault_next_id.
Qed.

Lemma inserted_rows n w :
  rows (registry (inserted n w))
  = rows (registry w) ++ [with_id (next_id (registry w)) n].
Proof.
  unfold inserted. simpl. by rewrite after_fault_rows, after_fault_next_id.
Qed.

(** [Register] by cases on what the lookup and the write answer. *)
Lemma Register_eq svc w :
  let key := master_key svc in
  let w1 := after_fault w in
  let absent e :=
    let w2 := snd (emit (Infof "master[%s] does not exist in db" [ArgS key]) w1) in
    if decide (Error e = Error ErrNoDocuments) then
      match next_fault w2 with
      | Some e' => (Some e', after_fault w2)
      | None =>
          match find (has_key key) (rows (registry w)) with
          | Some _ => (Some duplicate_key, after_fault w2)
          | None =>
              (None,
               snd (emit (Infof "added master[%s] in db. id: %s"
                                [ArgS key; ArgHex (next_id (registry w))])
                         (inserted (fresh_master key 0 (now w)) w2)))
          end
      end
    else (Some e, w1) in
  Register svc w
  = match next_fault w with
    | Some e => absent e
    | None =>
        match find (has_key key) (rows (registry w)) with
        | None => absent ErrNoDocuments
        | Some n =>
            let w2 := snd (emit (Infof "master[%s] exists in db" [ArgS key]) w1) in
            match next_fault w2 with
            | Some e' => (Some e', after_fault w2)
            | None =>
                (None,
                 snd (emit (Infof "updated master[%s] in db. id: %s"
                                  [ArgS key; ArgHex (Id n)])
                           (written (Key n) (go_online (now w)) w2)))
            end
        end
    end.
Proof.
  intros key w1 absent.
  assert (Habs : forall e,
    (if decide (Error e = Error ErrNoDocuments) then
       (emit (Infof "master[%s] does not exist in db" [ArgS key]) ;;
        t <- time_Now ;;
        a <- delegate_Add (mkNode 0 key key true NodeStatusOnline true true t) ;;
        match a with
        | inl err => ret (Some err)
        | inr node' =>
            emit (Infof "added master[%s] in db. id: %s"
                        [ArgS key; ArgHex (Id node')]) ;;
            ret None
        end)
     else ret (Some e)) w1 = absent e).
  { intros e. unfold absent. destruct (decide _); [|reflexivity].
    unfold bind, emit, time_Now. simpl. rewrite delegate_Add_eq. simpl.
    unfold w1. rewrite !after_fault_rows, !after_fault_now.
    destruct (next_fault _); [reflexivity|].
    destruct (find _ _); [reflexivity|].
    unfold ret, fresh_master. simpl. by rewrite after_fault_next_id. }
  unfold Register. fold (master_key svc). fold key.
  unfold bind at 1. rewrite GetNodeByKey_eq. fold w1.
  destruct (next_fault w) as [e|].
  - apply Habs.
  - destruct (find (has_key key) (rows (registry w))) as [n|] eqn:Hf.
    + unfold bind, emit, delegate_UpdateStatusOnline, time_Now. simpl.
      unfold bind. rewrite update_status_eq. simpl.
      destruct (next_fault _); [reflexivity|].
      unfold ret. simpl. unfold w1. by rewrite after_fault_now.
    + apply Habs.
Qed.

#[local] Hint Rewrite written_rows written_server written_now inserted_rows
  : world.

(** ** The monitor loop *)

Lemma advances_refl w : advances w w.
Proof.
  constructor; try done.
  exists []. split; [by rewrite app_nil_r | constructor].
Qed.

Lemma advances_trans w1 w2 w3 :
  advances w1 w2 -> advances w2 w3 -> advances w1 w3.
Proof.
  intros [T1 P1 (l1 & L1 & F1) O1 N1 R1] [T2 P2 (l2 & L2 & F2) O2 N2 R2].
  constructor.
  - intros k. by rewrite T1.
  - intros k. specialize (P1 k). specialize (P2 k). lia.
  - exists (l1 ++ l2). split; [by rewrite L2, L1, app_assoc | by apply Forall_app].
  - intros key H. by apply O2, O1.
  - by rewrite N2.
  - by rewrite R2.
Qed.

Lemma advances_emit e w : plain_line e -> advances w (emit e w).2.
Proof.
  intros He. constructor; try done.
  exists [e]. split; [done | by constructor].
Qed.

Lemma advances_after_fault w : advances w (after_fault w).
Proof.
  constructor; unfold pings, offline_under; autorewrite with world; try done.
  exists []. split; [by rewrite after_fault_log, app_nil_r | constructor].
Qed.

Lemma update_rows_elem key f l r :
  r ∈ update_rows key f l ->
  exists r0, r0 ∈ l /\ r = (if has_key key r0 then f r0 else r0).
Proof.
  unfold update_rows. intros H. apply list_elem_of_fmap in H as (r0 & -> & H).
  by exists r0.
Qed.

Lemma advances_written_offline key w :
  advances w (written key go_offline w).
Proof.
  constructor; unfold pings; autorewrite with world; try done.
  - exists []. split; [by rewrite written_log, app_nil_r | constructor].
  - intros k H r Hr Hk. unfold offline_under in H.
    rewrite written_rows in Hr.
    apply update_rows_elem in Hr as (r0 & Hr0 & ->).
    destruct (has_key key r0); [reflexivity|]. by apply H.
Qed.

Lemma written_offline_under key w :
  offline_under key (written key go_offline w).
Proof.
  intros r Hr Hk. rewrite written_rows in Hr.
  apply update_rows_elem in Hr as (r0 & Hr0 & ->).
  destruct (has_key key r0) eqn:E; [reflexivity|].
  apply has_key_false in E. done.
Qed.

(** [mark_failed] by cases on what the registry answers. *)
Lemma mark_failed_eq n w :
  mark_failed n w
  = (true,
     match next_fault w with
     | None => written (Key n) go_offline w
     | Some e => (emit (PrintError e) (after_fault w)).2
     end).
Proof.
  unfold mark_failed, setWorkerNodeOffline, delegate_UpdateStatusOffline, bind.
  rewrite update_status_eq. by destruct (next_fault w).
Qed.

Lemma advances_mark_failed n w : advances w (mark_failed n w).2.
Proof.
  rewrite mark_failed_eq. simpl. destruct (next_fault w).
  - eapply advances_trans; [apply advances_after_fault|].
    by apply advances_emit.
  - apply advances_written_offline.
Qed.

(** A probe that fails: the line is written, the flag goes up, the
    worker is marked. *)
Lemma monitor_node_failed svc n b w ev :
  probe_report n w = Some ev ->
  monitor_node svc n b w = mark_failed n (emit ev w).2.
Proof.
  unfold probe_report, monitor_node, bind, server_GetSubscribe, stream_Send.
  destruct (subs (server w) !! Key n) as [st|] eqn:Hs.
  - simpl. rewrite Hs. destruct (broken st); [|discriminate]. by intros [= <-].
  - by intros [= <-].
Qed.

(** A probe that succeeds: the heartbeat goes out and that is all. *)
Lemma monitor_node_ok svc n b w :
  probe_report n w = None ->
  monitor_node svc n b w = (b, pinged svc (Key n) w).
Proof.
  unfold probe_report, monitor_node, bind, server_GetSubscribe, pinged,
    stream_Send, heartbeat, master_key.
  destruct (subs (server w) !! Key n) as [st|] eqn:Hs; [|discriminate].
  simpl. rewrite Hs. by destruct (broken st).
Qed.

Lemma pinged_registry svc key w : registry (pinged svc key w) = registry w.
Proof.
  unfold pinged, stream_Send.
  destruct (subs (server w) !! key) as [st|]; [|done]. by destruct (broken st).
Qed.

Lemma pinged_log svc key w : log (pinged svc key w) = log w.
Proof.
  unfold pinged, stream_Send.
  destruct (subs (server w) !! key) as [st|]; [|done]. by destruct (broken st).
Qed.

Lemma pinged_now svc key w : now (pinged svc key w) = now w.
Proof.
  unfold pinged, stream_Send.
  destruct (subs (server w) !! key) as [st|]; [|done]. by destruct (broken st).
Qed.

Lemma pinged_subs svc key w st :
  subs (server w) !! key = Some st ->
  broken st = None ->
  subs (server (pinged svc key w))
  = <[key := mkStream None (sent st ++ [heartbeat svc])]> (subs (server w)).
Proof.
  intros Hs Hb. unfold pinged, stream_Send. by rewrite Hs, Hb.
Qed.

Lemma pinged_running svc key w :
  running (server (pinged svc key w)) = running (server w).
Proof.
  unfold pinged, stream_Send.
  destruct (subs (server w) !! key) as [st|]; [|done]. by destruct (broken st).
Qed.

Lemma probe_report_None n w :
  probe_report n w = None ->
  exists st, subs (server w) !! Key n = Some st /\ broken st = None.
Proof.
  unfold probe_report. destruct (subs (server w) !! Key n) as [st|]; [|done].
  destruct (broken st) eqn:E; [done|]. by exists st.
Qed.

Lemma pinged_pings svc n w :
  probe_report n w = None ->
  pings (Key n) (pinged svc (Key n) w) = S (pings (Key n) w).
Proof.
  intros H. apply probe_report_None in H as (st & Hs & Hb).
  unfold pings. rewrite (pinged_subs _ _ _ _ Hs Hb), lookup_insert_eq, Hs.
  simpl. rewrite length_app. simpl. lia.
Qed.

Lemma advances_pinged svc n w :
  probe_report n w = None -> advances w (pinged svc (Key n) w).
Proof.
  intros H. pose proof H as (st & Hs & Hb)%probe_report_None.
  constructor.
  - intros k. rewrite (pinged_subs _ _ _ _ Hs Hb).
    destruct (decide (Key n = k)) as [<-|Hne].
    + rewrite lookup_insert_eq, Hs. simpl. by rewrite Hb.
    + by rewrite lookup_insert_ne.
  - intros k. destruct (decide (Key n = k)) as [<-|Hne].
    + rewrite pinged_pings by done. lia.
    + unfold pings. rewrite (pinged_subs _ _ _ _ Hs Hb).
      by rewrite lookup_insert_ne.
  - exists []. split; [by rewrite pinged_log, app_nil_r | constructor].
  - intros key Ho. unfold offline_under. by rewrite pinged_registry.
  - apply pinged_now.
  - apply pinged_running.
Qed.

Lemma advances_monitor_node svc n b w :
  advances w (monitor_node svc n b w).2.
Proof.
  destruct (probe_report n w) as [ev|] eqn:H.
  - rewrite (monitor_node_failed _ _ _ _ _ H).
    eapply advances_trans; [|apply advances_mark_failed].
    apply advances_emit. unfold probe_report in H.
    destruct (subs (server w) !! Key n) as [st|].
    + destruct (broken st); by inversion H.
    + by inversion H.
  - rewrite (monitor_node_ok _ _ _ _ H). by apply advances_pinged.
Qed.

Lemma monitor_nodes_app svc l1 l2 b w :
  monitor_nodes svc (l1 ++ l2) b w
  = monitor_nodes svc l2 (monitor_nodes svc l1 b w).1
                         (monitor_nodes svc l1 b w).2.
Proof.
  revert b w. induction l1 as [|n l1 IH]; intros b w; simpl.
  - by destruct (monitor_nodes svc l2 b w).
  - unfold bind. destruct (monitor_node svc n b w) as [b' w']. apply IH.
Qed.

Lemma monitor_nodes_cons svc n l b w :
  monitor_nodes svc (n :: l) b w
  = monitor_nodes svc l (monitor_node svc n b w).1 (monitor_node svc n b w).2.
Proof. simpl. unfold bind. by destruct (monitor_node svc n b w). Qed.

Lemma advances_monitor_nodes svc l b w :
  advances w (monitor_nodes svc l b w).2.
Proof.
  revert b w. induction l as [|n l IH]; intros b w.
  - apply advances_refl.
  - rewrite monitor_nodes_cons.
    eapply advances_trans; [apply advances_monitor_node | apply IH].
Qed.

(** The probe of a node finds the same whatever the loop did before. *)
Lemma advances_probe_report n w w' :
  advances w w' -> probe_report n w' = probe_report n w.
Proof.
  intros [T _ _ _ _ _]. specialize (T (Key n)). unfold probe_report.
  destruct (subs (server w) !! Key n) as [st|],
           (subs (server w') !! Key n) as [st'|]; simpl in T; try done.
  by injection T as ->.
Qed.

Lemma advances_probe_ok n w w' :
  advances w w' -> probe_ok n w' = probe_ok n w.
Proof. intros H. unfold probe_ok. by rewrite (advances_probe_report _ _ _ H). Qed.

Lemma probe_ok_true n w : probe_ok n w = true <-> probe_report n w = None.
Proof. unfold probe_ok. apply bool_decide_eq_true. Qed.

Lemma probe_ok_false n w :
  probe_ok n w = false <-> exists ev, probe_report n w = Some ev.
Proof.
  unfold probe_ok. rewrite bool_decide_eq_false.
  destruct (probe_report n w); split; try done; eauto.
  intros [ev Hev]. done.
Qed.

Lemma existsb_congr {A} (f g : A -> bool) l :
  (forall a, f a = g a) -> existsb f l = existsb g l.
Proof. intros H. induction l as [|a l IH]; simpl; [done | by rewrite H, IH]. Qed.

(** The flag only goes up. *)
Lemma monitor_node_flag svc n b w :
  (monitor_node svc n b w).1 = (b || negb (probe_ok n w)).
Proof.
  destruct (probe_report n w) as [ev|] eqn:H.
  - rewrite (monitor_node_failed _ _ _ _ _ H), mark_failed_eq. simpl.
    assert (probe_ok n w = false) as -> by (apply probe_ok_false; eauto).
    by rewrite orb_true_r.
  - rewrite (monitor_node_ok _ _ _ _ H). simpl.
    assert (probe_ok n w = true) as -> by (by apply probe_ok_true).
    by rewrite orb_false_r.
Qed.

Lemma monitor_nodes_flag svc l b w :
  (monitor_nodes svc l b w).1 = (b || existsb (fun n => negb (probe_ok n w)) l).
Proof.
  revert b w. induction l as [|n l IH]; intros b w.
  - simpl. by rewrite orb_false_r.
  - rewrite monitor_nodes_cons, IH, monitor_node_flag. simpl.
    rewrite <- orb_assoc. f_equal. f_equal.
    apply existsb_congr. intros m. f_equal.
    apply advances_probe_ok, advances_monitor_node.
Qed.

(** Every node of the list is probed, whatever the probes of the others
    find. *)
Lemma monitor_node_probed svc n b w : probed n w (monitor_node svc n b w).2.
Proof.
  unfold probed. destruct (probe_report n w) as [ev|] eqn:H.
  - rewrite (monitor_node_failed _ _ _ _ _ H).
    destruct (advances_mark_failed n (emit ev w).2) as [_ _ (l & Hl & _) _ _ _].
    exists (ev :: l). split; [|apply list_elem_of_here].
    rewrite Hl. simpl. by rewrite <- app_assoc.
  - rewrite (monitor_node_ok _ _ _ _ H). simpl. rewrite pinged_pings by done. lia.
Qed.

Lemma probed_advances n w0 w w' w'' :
  advances w0 w -> probed n w w' -> advances w' w'' -> probed n w0 w''.
Proof.
  intros A0 P A. unfold probed in *.
  rewrite (advances_probe_report _ _ _ A0) in P.
  destruct (probe_report n w0) as [ev|].
  - destruct P as (l & Hl & Hin).
    destruct A0 as [_ _ (l0 & Hl0 & _) _ _ _], A as [_ _ (l2 & Hl2 & _) _ _ _].
    exists (l0 ++ l ++ l2). split.
    + by rewrite Hl2, Hl, Hl0, <- !app_assoc.
    + set_solver.
  - pose proof (adv_pings _ _ A0 (Key n)). pose proof (adv_pings _ _ A (Key n)).
    lia.
Qed.

Lemma monitor_nodes_probed svc l b w n :
  n ∈ l -> probed n w (monitor_nodes svc l b w).2.
Proof.
  intros Hin. apply list_elem_of_split in Hin as (l1 & l2 & ->).
  rewrite monitor_nodes_app, monitor_nodes_cons.
  eapply probed_advances.
  - apply advances_monitor_nodes.
  - apply monitor_node_probed.
  - apply advances_monitor_nodes.
Qed.

(** ** One tick *)

Lemma updateMasterNodeStatus_eq svc w :
  updateMasterNodeStatus svc w
  = match next_fault w with
    | Some e => (Some e, after_fault w)
    | None =>
        match find (has_key (master_key svc)) (rows (registry w)) with
        | None => (Some ErrNoDocuments, after_fault w)
        | Some n =>
            match next_fault (after_fault w) with
            | Some e => (Some e, after_fault (after_fault w))
            | None => (None, written (Key n) (go_online (now w)) (after_fault w))
            end
        end
    end.
Proof.
  unfold updateMasterNodeStatus, bind. fold (master_key svc).
  rewrite GetNodeByKey_eq.
  destruct (next_fault w); [reflexivity|].
  destruct (find _ _); [|reflexivity].
  unfold delegate_UpdateStatusOnline, bind, time_Now.
  rewrite update_status_eq, after_fault_now.
  by destruct (next_fault (after_fault w)).
Qed.

(** The refresh of the master's row leaves server, log and clock alone. *)
Lemma updateMasterNodeStatus_frame svc w :
  let w1 := (updateMasterNodeStatus svc w).2 in
  server w1 = server w /\ log w1 = log w /\ now w1 = now w.
Proof.
  rewrite updateMasterNodeStatus_eq.
  repeat case_match; simpl;
    rewrite ?written_log, ?after_fault_log; autorewrite with world; done.
Qed.

Lemma GetNodeList_frame m w :
  let w1 := (GetNodeList m w).2 in
  server w1 = server w /\ log w1 = log w /\ now w1 = now w
  /\ rows (registry w1) = rows (registry w).
Proof.
  rewrite GetNodeList_eq.
  case_match; simpl; rewrite ?after_fault_log; autorewrite with world; done.
Qed.

(** [monitor] by cases on what its calls answer. *)
Lemma monitor_eq svc w :
  monitor svc w
  = let (u, w1) := updateMasterNodeStatus svc w in
    match u with
    | Some err => (Some err, w1)
    | None =>
        let (l, w2) := GetNodeList false w1 in
        match l with
        | inl err =>
            if decide (err = ErrNoDocuments) then (None, w2)
            else (Some err, (emit (PrintError err) w2).2)
        | inr nodes =>
            let (isErr, w3) := monitor_nodes svc nodes false w2 in
            if isErr
            then (Some ErrorNodeMonitorError,
                  (emit (PrintError ErrorNodeMonitorError) w3).2)
            else (None, w3)
        end
    end.
Proof.
  unfold monitor, bind.
  destruct (updateMasterNodeStatus svc w) as [[err|] w1]; [reflexivity|].
  destruct (GetNodeList false w1) as [[err|nodes] w2].
  - by destruct (decide (err = ErrNoDocuments)).
  - destruct (monitor_nodes svc nodes false w2) as [[|] w3]; reflexivity.
Qed.

Lemma probe_report_server n w w' :
  server w' = server w -> probe_report n w' = probe_report n w.
Proof. intros H. unfold probe_report. by rewrite H. Qed.

Lemma probe_ok_server n w w' :
  server w' = server w -> probe_ok n w' = probe_ok n w.
Proof. intros H. unfold probe_ok. by rewrite (probe_report_server _ _ _ H). Qed.

(** The errors the registry hands out come from the fault schedule, but
    for the no-documents error of a lookup that finds nothing. *)
Lemma next_fault_elem w e :
  next_fault w = Some e -> Some e ∈ faults (registry w).
Proof.
  unfold next_fault. destruct (faults (registry w)) as [|f fs]; [done|].
  intros ->. apply list_elem_of_here.
Qed.

Lemma after_fault_faults w x :
  x ∈ faults (registry (after_fault w)) -> x ∈ faults (registry w).
Proof.
  unfold after_fault, take_fault.
  destruct (faults (registry w)) as [|f fs] eqn:E; simpl.
  - by rewrite E.
  - intros H. by apply list_elem_of_further.
Qed.

Lemma written_faults key f w x :
  x ∈ faults (registry (written key f w)) -> x ∈ faults (registry w).
Proof. unfold written. simpl. apply after_fault_faults. Qed.

Lemma updateMasterNodeStatus_faults svc w :
  let out := updateMasterNodeStatus svc w in
  (forall e, out.1 = Some e -> e = ErrNoDocuments \/ Some e ∈ faults (registry w))
  /\ (forall x, x ∈ faults (registry out.2) -> x ∈ faults (registry w)).
Proof.
  rewrite updateMasterNodeStatus_eq.
  destruct (next_fault w) as [e|] eqn:H1; simpl.
  { split; [intros ? [= <-]; right; by apply next_fault_elem
           | apply after_fault_faults]. }
  destruct (find _ _); simpl;
    [|split; [intros ? [= <-]; by left | apply after_fault_faults]].
  destruct (next_fault (after_fault w)) as [e|] eqn:H2; simpl.
  - split.
    + intros ? [= <-]. right. by apply after_fault_faults, next_fault_elem.
    + intros x Hx. by apply after_fault_faults, after_fault_faults.
  - split; [done|]. intros x Hx.
    by apply after_fault_faults, after_fault_faults.
Qed.

Lemma GetNodeList_faults m w e w1 :
  GetNodeList m w = (inl e, w1) -> Some e ∈ faults (registry w).
Proof.
  rewrite GetNodeList_eq. destruct (next_fault w) eqn:H; [|done].
  intros [= <- <-]. by apply next_fault_elem.
Qed.

(** A tick writes plain lines only and leaves the clock alone. *)
Lemma monitor_quiet svc w :
  now (monitor svc w).2 = now w
  /\ exists l, log (monitor svc w).2 = log w ++ l /\ Forall plain_line l.
Proof.
  rewrite monitor_eq.
  pose proof (updateMasterNodeStatus_frame svc w) as (_ & L1 & N1).
  destruct (updateMasterNodeStatus svc w) as [[err|] w1]; simpl in L1, N1.
  { split; [done|]. exists []. by rewrite app_nil_r. }
  pose proof (GetNodeList_frame false w1) as (_ & L2 & N2 & _).
  destruct (GetNodeList false w1) as [[err|nodes] w2]; simpl in L2, N2.
  - destruct (decide (err = ErrNoDocuments)); simpl.
    + split; [congruence|]. exists []. rewrite app_nil_r. split; [congruence|done].
    + split; [congruence|]. exists [PrintError err].
      split; [congruence | by constructor].
  - pose proof (advances_monitor_nodes svc nodes false w2)
      as [_ _ (l & L3 & F3) _ N3 _].
    destruct (monitor_nodes svc nodes false w2) as [[|] w3]; simpl in *.
    + split; [congruence|]. exists (l ++ [PrintError ErrorNodeMonitorError]).
      split; [rewrite L3, app_assoc; congruence|].
      apply Forall_app. split; [done | by constructor].
    + split; [congruence|]. exists l. split; [congruence | done].
Qed.

Lemma Monitor_body_eq svc w :
  Monitor_body svc w
  = let tick := monitor svc (emit TickBegin w).2 in
    let w2 := (emit (TickEnd tick.1) tick.2).2 in
    match tick.1 with
    | Some err =>
        let w3 := (emit (PrintError err) w2).2 in
        if stopOnError svc then (false, (Stop svc w3).2)
        else (true, (time_Sleep (monitorInterval svc) w3).2)
    | None => (true, (time_Sleep (monitorInterval svc) w2).2)
    end.
Proof.
  unfold Monitor_body, bind. simpl.
  destruct (monitor svc _) as [[err|] w1]; simpl; [|reflexivity].
  destruct (stopOnError svc); reflexivity.
Qed.


(** ** Order of events *)

Lemma precedes_nil a b : precedes a b [].
Proof. intros l1 l2 H. by destruct l1. Qed.

Lemma precedes_absent a b l : b ∉ l -> precedes a b l.
Proof. intros Hb l1 l2 ->. exfalso. apply Hb. set_solver. Qed.

Lemma precedes_here a b l : a <> b -> precedes a b (a :: l).
Proof.
  intros Hab l1 l2 H. destruct l1 as [|x l1]; simpl in H.
  - congruence.
  - injection H as <- _. apply list_elem_of_here.
Qed.

Lemma precedes_app a b l l' :
  precedes a b l -> a ∈ l \/ precedes a b l' -> precedes a b (l ++ l').
Proof.
  intros Hl Hl' l1 l2 H.
  apply app_eq_inv in H as [(k & Hk1 & Hk2) | (k & -> & Hk)].
  - destruct k as [|x k]; simpl in Hk2.
    + rewrite app_nil_r in Hk1. subst l. destruct Hl' as [Ha | Hp]; [done|].
      specialize (Hp [] l2 (eq_sym Hk2)). by apply elem_of_nil in Hp.
    + injection Hk2 as <- _. by apply (Hl l1 k).
  - destruct Hl' as [Ha | Hp]; [set_solver|].
    specialize (Hp _ _ Hk). set_solver.
Qed.

Lemma plain_not_marker l : Forall plain_line l -> Forall (fun e => ~ main_marker e) l.
Proof.
  intros H. eapply Forall_impl; [exact H|].
  intros [] Hp Hm; simpl in *; done.
Qed.

Lemma not_marker_absent b l :
  main_marker b -> Forall (fun e => ~ main_marker e) l -> b ∉ l.
Proof. intros Hb Hl Hin. rewrite Forall_forall in Hl. by apply (Hl b). Qed.

Lemma inserted_log n w : log (inserted n w) = log w.
Proof. unfold inserted. simpl. apply after_fault_log. Qed.

(** [Register] writes plain lines only. *)
Lemma Register_log svc w :
  exists l, log (Register svc w).2 = log w ++ l /\ Forall plain_line l.
Proof.
  rewrite Register_eq. cbv zeta.
  repeat case_match; simpl;
    rewrite ?inserted_log, ?written_log, ?after_fault_log; simpl;
    rewrite ?after_fault_log;
    eexists; split;
    try (rewrite <- ?app_assoc; first [reflexivity | by rewrite app_nil_r]);
    repeat constructor.
Qed.

(** A round of the monitor loop begins a tick and writes no marker of the
    main goroutine. *)
Lemma Monitor_body_events svc w :
  exists l, log (Monitor_body svc w).2 = log w ++ TickBegin :: l
            /\ (TickBegin ∉ l)
            /\ Forall (fun e => ~ main_marker e) l.
Proof.
  rewrite Monitor_body_eq. cbv zeta.
  destruct (monitor_quiet svc (emit TickBegin w).2) as (_ & l & L & F).
  simpl in L.
  assert (Hl : TickBegin ∉ l).
  { intros Hin. rewrite Forall_forall in F. by apply (F _ Hin). }
  apply plain_not_marker in F.
  destruct (monitor svc _) as [[e|] w1]; simpl in *.
  - destruct (stopOnError svc); simpl; rewrite L, <- !app_assoc; simpl;
      eexists; split; try reflexivity; split.
    + rewrite !not_elem_of_app, !not_elem_of_cons. repeat split; try done.
      apply not_elem_of_nil.
    + apply Forall_app. split; [done|]. repeat constructor; by intros [].
    + rewrite !not_elem_of_app, !not_elem_of_cons. repeat split; try done.
      apply not_elem_of_nil.
    + apply Forall_app. split; [done|]. repeat constructor; by intros [].
  - rewrite L, <- !app_assoc. simpl. eexists. split; [reflexivity|]. split.
    + rewrite !not_elem_of_app, !not_elem_of_cons. repeat split; try done.
      apply not_elem_of_nil.
    + apply Forall_app. split; [done|]. repeat constructor; by intros [].
Qed.

(** ** The invariant of the process *)

Lemma start_order_nil : start_order [].
Proof. constructor; apply precedes_nil. Qed.

Lemma start_order_app l l' :
  start_order l ->
  (ServerStart ∈ l \/ precedes ServerStart RegisterBegin l') ->
  (RegisterEnd None ∈ l \/ precedes (RegisterEnd None) GoMonitor l') ->
  (GoMonitor ∈ l \/ precedes GoMonitor WaitReturned l') ->
  (GoMonitor ∈ l \/ precedes GoMonitor TickBegin l') ->
  (RegisterEnd None ∈ l \/ precedes (RegisterEnd None) TickBegin l') ->
  start_order (l ++ l').
Proof.
  intros [O1 O2 O3 O4 O5] H1 H2 H3 H4 H5.
  constructor; by apply precedes_app.
Qed.

(** Lines that are no marker and no tick keep the order. *)
Lemma start_order_app_quiet l l' :
  start_order l ->
  Forall (fun e => ~ main_marker e) l' ->
  TickBegin ∉ l' ->
  start_order (l ++ l').
Proof.
  intros O F T. apply start_order_app; try done; right; apply precedes_absent;
    try done; by apply not_marker_absent.
Qed.

Lemma boot_inv w : start_inv (boot w).
Proof.
  constructor; simpl; try done.
  - apply start_order_nil.
  - intros H. by apply elem_of_nil in H.
Qed.

Lemma server_Start_log w :
  log (server_Start w).2 = log w ++ [ServerStart].
Proof. unfold server_Start, bind. simpl. by destruct (start_fault (server w)). Qed.

Lemma Stop_log svc w :
  log (Stop svc w).2
  = log w ++ [ServerStop;
              Infof "master[%s] service has stopped" [ArgS (master_key svc)]].
Proof. unfold Stop, bind. simpl. by rewrite <- app_assoc. Qed.

Ltac absent := apply precedes_absent; set_solver.

(** [svc.server.Start()] *)
Lemma step_inv_server_start svc p :
  start_inv p -> main p = AtServerStart -> start_inv (step svc RunMain p).
Proof.
  intros [O Ph Sp Q] Hm. rewrite Hm in Ph. destruct Ph as [L N].
  unfold step. rewrite Hm. simpl. unfold bind.
  pose proof (server_Start_log (world p)) as L'. rewrite L in L'. simpl in L'.
  destruct (server_Start (world p)) as [[e|] w']; simpl in *.
  all: constructor; simpl; rewrite ?L'.
  all: try (constructor; absent).
  all: try (intros; set_solver).
  all: repeat split; try done; set_solver.
Qed.

(** [svc.Register()] *)
Lemma step_inv_register svc p :
  start_inv p -> main p = AtRegister -> start_inv (step svc RunMain p).
Proof.
  intros [O Ph Sp Q] Hm. rewrite Hm in Ph. destruct Ph as [L N].
  unfold step. rewrite Hm. simpl. unfold bind. simpl.
  pose proof (Register_log svc (set_log (log (world p) ++ [RegisterBegin]) (world p)))
    as (l & L' & F).
  destruct (Register svc (set_log _ _)) as [r w'].
  simpl in L'. rewrite L in L'. simpl in L'.
  pose proof (plain_not_marker _ F) as F'.
  assert (TickBegin ∉ l)
    by (intros Hin; rewrite Forall_forall in F; by apply (F _ Hin)).
  assert (GoMonitor ∉ l) by (by apply not_marker_absent).
  assert (WaitReturned ∉ l) by (by apply not_marker_absent).
  assert (RegisterBegin ∉ l) by (by apply not_marker_absent).
  destruct r as [e|]; simpl in *.
  all: constructor; simpl; rewrite ?L'; simpl.
  all: try (constructor; first [by apply precedes_here | absent]).
  all: try (intros; congruence).
  all: try (intros Hin; exfalso; set_solver).
  all: repeat split; try done; set_solver.
Qed.

(** [go svc.Monitor()] *)
Lemma step_inv_go svc p :
  start_inv p -> main p = AtGoMonitor -> start_inv (step svc RunMain p).
Proof.
  intros [O Ph Sp Q] Hm. rewrite Hm in Ph. destruct Ph as (R & N & G & T & W).
  unfold step. rewrite Hm. simpl.
  constructor; simpl.
  - apply start_order_app; try done; first [by left | right; absent].
  - split; [done | set_solver].
  - intros _. set_solver.
  - intros Hin. exfalso. set_solver.
Qed.

(** [svc.Wait()], once the quit signal is there. *)
Lemma step_inv_wait svc p :
  start_inv p -> main p = AtWait -> start_inv (step svc RunMain p).
Proof.
  intros Hinv Hm. pose proof Hinv as [O Ph Sp Q]. rewrite Hm in Ph.
  destruct Ph as (N & W). destruct (Sp N) as (R & G).
  unfold step. rewrite Hm.
  destruct (decide (quit p = true)) as [Hq|Hq%not_true_is_false]; rewrite Hq;
    [|exact Hinv].
  simpl. constructor; simpl.
  - apply start_order_app; try done; first [by left | right; absent].
  - split; [done | set_solver].
  - intros _. set_solver.
  - done.
Qed.

(** [svc.Stop()] *)
Lemma step_inv_stop svc p :
  start_inv p -> main p = AtStop -> start_inv (step svc RunMain p).
Proof.
  intros [O Ph Sp Q] Hm. rewrite Hm in Ph. destruct Ph as (N & W).
  destruct (Sp N) as (R & G).
  unfold step. rewrite Hm. simpl.
  replace (match quit p with true | _ => _ end)
    with (Some (Stop svc;; ret Returned)) by (by destruct (quit p)).
  all: unfold bind; simpl.
  all: constructor; simpl.
  all: try (rewrite <- app_assoc; apply start_order_app_quiet;
            [done | repeat constructor; by intros [] | set_solver]).
  all: try (split; [done|];
            apply list_elem_of_split in W as (l1 & l2 & ->);
            exists l1, (l2 ++ [ServerStop] ++
                        [Infof "master[%s] service has stopped"
                               [ArgS (GetNodeKey (GetConfigService svc))]]);
            split; [by rewrite <- !app_assoc | set_solver]).
  all: try (intros _; set_solver).
  all: try (intros _; by apply Q).
Qed.

(** A round of the monitor loop. *)
Lemma step_inv_monitor svc p : start_inv p -> start_inv (step svc RunMonitor p).
Proof.
  intros Hinv. unfold step.
  destruct (monitor_thread p) eqn:Ht; [exact Hinv | | exact Hinv].
  destruct Hinv as [O Ph Sp Q]. rewrite Ht in Sp, Ph.
  destruct (Sp ltac:(congruence)) as (R & G).
  pose proof (Monitor_body_events svc (world p)) as (l & L & T & F).
  destruct (Monitor_body svc (world p)) as [again w']. simpl in L.
  assert (Hne : (if again then Looping else Exited) <> NotSpawned)
    by (by destruct again).
  assert (W : WaitReturned ∉ TickBegin :: l).
  { apply not_elem_of_cons. split; [done|]. by apply not_marker_absent. }
  constructor; simpl; rewrite L.
  - apply start_order_app; try done; first [by left | right].
    apply precedes_absent. apply not_elem_of_cons. split; [done|].
    by apply not_marker_absent.
  - destruct (main p) eqn:Hm; simpl in Ph;
      try (exfalso; clear -Ph; naive_solver).
    + destruct Ph as (N & W'). split; [done | set_solver].
    + destruct Ph as (N & W'). split; [done | set_solver].
    + destruct Ph as (N & l1 & l2 & -> & S). split; [done|].
      exists l1, (l2 ++ TickBegin :: l).
      split; [by rewrite <- app_assoc | set_solver].
  - intros _. set_solver.
  - intros Hin. apply Q. set_solver.
Qed.

Lemma step_inv svc c p : start_inv p -> start_inv (step svc c p).
Proof.
  intros H. destruct c.
  - destruct (main p) eqn:Hm.
    + by apply step_inv_server_start.
    + by apply step_inv_register.
    + by apply step_inv_go.
    + by apply step_inv_wait.
    + by apply step_inv_stop.
    + unfold step. rewrite Hm. simpl. by destruct H.
    + unfold step. rewrite Hm. simpl. by destruct H.
  - by apply step_inv_monitor.
  - destruct H as [O Ph Sp Q]. by constructor; simpl.
Qed.

Lemma run_inv svc sched p : start_inv p -> start_inv (run svc sched p).
Proof.
  revert p. induction sched as [|c sched IH]; intros p H; [done|].
  simpl. apply IH. by apply step_inv.
Qed.

(** ** Self-registration *)

(** A successful [Register] either appended the fresh master row to a
    registry that had no row under the key, or wrote the rows under the
    key online. *)
Lemma Register_success svc w w1 :
  Register svc w = (None, w1) ->
  let key := master_key svc in
  (find (has_key key) (rows (registry w)) = None
   /\ rows (registry w1)
      = rows (registry w) ++ [fresh_master key (next_id (registry w)) (now w)])
  \/ (exists n, find (has_key key) (rows (registry w)) = Some n
      /\ rows (registry w1)
         = update_rows key (go_online (now w)) (rows (registry w))).
Proof.
  intros H key. rewrite Register_eq in H. cbv zeta in H. fold key in H.
  repeat case_match; simplify_eq; simpl; autorewrite with world.
  - left. split; reflexivity.
  - right. eexists. split; [reflexivity|].
    match goal with
    | Hf : find _ _ = Some _ |- _ => apply find_has_key_Some in Hf as [_ ->]
    end.
    reflexivity.
  - left. split; reflexivity.
Qed.

Lemma filter_key_app_fresh key l id t :
  filter (fun n => Key n = key) (l ++ [fresh_master key id t])
  = filter (fun n => Key n = key) l ++ [fresh_master key id t].
Proof.
  rewrite filter_app. f_equal.
  rewrite filter_cons, decide_True by reflexivity. reflexivity.
Qed.

Lemma update_rows_all key f l :
  Forall (fun n => Key n = key) l -> update_rows key f l = map f l.
Proof.
  intros H. unfold update_rows. apply map_ext_Forall.
  eapply Forall_impl; [exact H|]. intros n Hn. simpl.
  apply has_key_true in Hn. by rewrite Hn.
Qed.

Lemma filter_key_Forall key (l : list Node) :
  Forall (fun n => Key n = key) (filter (fun n => Key n = key) l).
Proof. apply Forall_forall. intros n Hn. by apply list_elem_of_filter in Hn as [Hn _]. Qed.

(** The rows under the key after a successful [Register]. *)
Lemma Register_success_rows svc w w1 :
  Register svc w = (None, w1) ->
  let key := master_key svc in
  let old := filter (fun n => Key n = key) (rows (registry w)) in
  filter (fun n => Key n = key) (rows (registry w1))
  = match old with
    | [] => [fresh_master key (next_id (registry w)) (now w)]
    | _ => map (go_online (now w)) old
    end.
Proof.
  intros H key old. apply Register_success in H. fold key in H.
  destruct H as [[Hf ->] | (n & Hf & ->)].
  - rewrite filter_key_app_fresh. apply find_has_key_None in Hf.
    unfold old. by rewrite Hf.
  - rewrite update_rows_filter by apply go_online_Key.
    rewrite update_rows_all by apply filter_key_Forall.
    fold old. destruct old eqn:Ho; [|reflexivity].
    apply find_has_key_None in Ho. congruence.
Qed.

(** C2 as it is stated fails: the registry holds a worker row under the
    master's key, both calls succeed, and the row they leave under the key
    is online but no master row. *)
Lemma Register_twice_no_master : ~ register_twice_one_master.
Proof.
  intros H.
  destruct (H svc_m1 world_worker_under_master_key
              (Register svc_m1 world_worker_under_master_key).2
              (Register svc_m1
                 (Register svc_m1 world_worker_under_master_key).2).2
              eq_refl eq_refl) as (m & Hm & Hmaster & _).
  vm_compute in Hm. injection Hm as <-. discriminate Hmaster.
Qed.

(** C2, amended. [Register] looks the master's key up.  With no row
    under the key it inserts the fresh master node (key and name the node
    key, master, online, enabled, active, active since now) and returns
    success; with a row under the key it writes the rows under the key
    online; an error of the lookup that does not read as mongo's
    no-documents error, and any error of the write, is returned as it is
    and the rows stay as they are.  [Register] never writes the master
    flag of a row it finds, so two successful calls in a row leave exactly
    one row under the key, a master row that is online, when the rows the
    registry held under the key were at most one and that a master
    row. *)
Theorem Register_spec (svc : MasterService) (w : World) :
  let key := master_key svc in
  let out := Register svc w in
  (* absent *)
  (next_fault w = None ->
   find (has_key key) (rows (registry w)) = None ->
   match next_fault (after_fault w) with
   | None =>
       out.1 = None
       /\ rows (registry out.2)
          = rows (registry w)
            ++ [mkNode (next_id (registry w)) key key true NodeStatusOnline
                       true true (now w)]
   | Some e => out.1 = Some e /\ rows (registry out.2) = rows (registry w)
   end)
  (* present *)
  /\ (forall n,
       next_fault w = None ->
       find (has_key key) (rows (registry w)) = Some n ->
       match next_fault (after_fault w) with
       | None =>
           out.1 = None
           /\ rows (registry out.2)
              = update_rows key (go_online (now w)) (rows (registry w))
       | Some e => out.1 = Some e /\ rows (registry out.2) = rows (registry w)
       end)
  (* any other error of the lookup *)
  /\ (forall e,
       next_fault w = Some e ->
       Error e <> Error ErrNoDocuments ->
       out.1 = Some e /\ rows (registry out.2) = rows (registry w))
  (* twice *)
  /\ (forall w1 w2,
       master_rows_ok key (rows (registry w)) ->
       Register svc w = (None, w1) ->
       Register svc w1 = (None, w2) ->
       exists m,
         filter (fun n => Key n = key) (rows (registry w2)) = [m]
         /\ IsMaster m = true /\ Status m = NodeStatusOnline).
Proof.
  intros key out. repeat split.
  - intros Hn Hf. unfold out. rewrite Register_eq. cbv zeta. fold key.
    rewrite Hn, Hf. rewrite decide_True by reflexivity.
    change (next_fault (snd (emit _ (after_fault w))))
      with (next_fault (after_fault w)).
    destruct (next_fault (after_fault w)); simpl.
    + split; [reflexivity|]. by autorewrite with world.
    + split; [reflexivity|]. by autorewrite with world.
  - intros n Hn Hf. unfold out. rewrite Register_eq. cbv zeta. fold key.
    rewrite Hn, Hf.
    change (next_fault (snd (emit _ (after_fault w))))
      with (next_fault (after_fault w)).
    destruct (next_fault (after_fault w)); simpl.
    + split; [reflexivity|]. by autorewrite with world.
    + split; [reflexivity|]. autorewrite with world.
      apply find_has_key_Some in Hf as [_ ->]. reflexivity.
  - unfold out. rewrite Register_eq. cbv zeta. rewrite H.
    by rewrite decide_False.
  - unfold out. rewrite Register_eq. cbv zeta. rewrite H.
    rewrite decide_False by done. simpl. apply after_fault_rows.
  - intros w1 w2 [Hlen Hmas] H1 H2.
    pose proof (Register_success_rows _ _ _ H1) as R1.
    pose proof (Register_success_rows _ _ _ H2) as R2.
    cbv zeta in R1, R2. fold key in R1, R2.
    destruct (filter (fun n => Key n = key) (rows (registry w))) as [|a l] eqn:Ho.
    + rewrite R1 in R2. simpl in R2. eexists. split; [exact R2|]. done.
    + destruct l as [|b l]; [|simpl in Hlen; lia].
      rewrite R1 in R2. simpl in R2. eexists. split; [exact R2|].
      split; [|reflexivity]. simpl.
      assert (Ha : a ∈ filter (fun n => Key n = key) (rows (registry w)))
        by (rewrite Ho; apply list_elem_of_here).
      apply list_elem_of_filter in Ha as [Hk Hin]. by apply Hmas.
Qed.

Lemma Register_spec_witness :
  let w0 := world_empty in
  let w1 := (Register svc_m1 w0).2 in
  let w2 := (Register svc_m1 w1).2 in
  (* absent: the fresh master row *)
  ((Register svc_m1 w0).1 = None
   /\ rows (registry w1) = [fresh_master "m1" 1 0])
  (* present: the row is written online *)
  /\ ((Register svc_m1 w1).1 = None
      /\ rows (registry w2) = [fresh_master "m1" 1 0])
  (* another error of the lookup comes back as it is *)
  /\ (Register svc_m1 (world_two_workers [Some registry_unavailable])).1
     = Some registry_unavailable
  (* twice: one master row, online *)
  /\ exists m,
       filter (fun n => Key n = "m1") (rows (registry w2)) = [m]
       /\ IsMaster m = true /\ Status m = NodeStatusOnline.
Proof.
  intros w0 w1 w2.
  destruct (Register_spec svc_m1 w0) as (Habsent & _ & _ & Htwice).
  destruct (Register_spec svc_m1 w1) as (_ & Hpresent & _ & _).
  destruct (Register_spec svc_m1 (world_two_workers [Some registry_unavailable]))
    as (_ & _ & Hother & _).
  split; [exact (Habsent eq_refl eq_refl)|].
  split; [exact (Hpresent (fresh_master "m1" 1 0) eq_refl eq_refl)|].
  split; [apply (Hother registry_unavailable eq_refl); discriminate|].
  apply (Htwice w1 w2).
  - split; [vm_compute; lia | intros n Hn; vm_compute in Hn; inversion Hn].
  - reflexivity.
  - reflexivity.
Defined.

(** ** A worker whose probe fails *)

Lemma advances_elem_log e w w' : advances w w' -> e ∈ log w -> e ∈ log w'.
Proof. intros [_ _ (l & -> & _) _ _ _] H. set_solver. Qed.

Lemma advances_probed n w w' w'' :
  probed n w w' -> advances w' w'' -> probed n w w''.
Proof.
  intros P A. eapply probed_advances; [apply advances_refl | exact P | exact A].
Qed.

(** The world after the iteration of a node whose probe fails. *)
Lemma monitor_node_failed_world svc n b w :
  probe_ok n w = false ->
  (monitor_node svc n b w).1 = true
  /\ match next_fault w with
     | None => offline_under (Key n) (monitor_node svc n b w).2
     | Some e => PrintError e ∈ log (monitor_node svc n b w).2
                 /\ rows (registry (monitor_node svc n b w).2)
                    = rows (registry w)
     end.
Proof.
  intros (ev & Hev)%probe_ok_false.
  rewrite (monitor_node_failed _ _ _ _ _ Hev), mark_failed_eq. simpl.
  split; [reflexivity|].
  change (next_fault (set_log (log w ++ [ev]) w)) with (next_fault w).
  destruct (next_fault w).
  - simpl. split; [set_solver|]. by autorewrite with world.
  - apply written_offline_under.
Qed.

(** C1 as it is stated fails: the probe of [w1] fails, the registry
    refuses the offline write, and [w1] is online when the tick ends. *)
Lemma failed_probe_may_stay_online : ~ failed_probe_sets_offline.
Proof.
  intros H.
  destruct (H svc_m1 world_offline_refused
              (updateMasterNodeStatus svc_m1 world_offline_refused).2
              (GetNodeList false
                 (updateMasterNodeStatus svc_m1 world_offline_refused).2).2
              [] [worker "w2" 3] (worker "w1" 2) eq_refl eq_refl eq_refl)
    as (_ & Hoff & _).
  specialize (Hoff (worker "w1" 2)).
  assert (Hin : worker "w1" 2
                ∈ rows (registry (monitor svc_m1 world_offline_refused).2))
    by (apply list_elem_of_In; vm_compute; tauto).
  specialize (Hoff Hin eq_refl). discriminate Hoff.
Qed.

(** C1, amended. In a tick whose refresh of the master's row went
    through and whose enumeration returned the non-master nodes
    [pre ++ n :: post]: if the lookup of the subscription of [n] or the
    send on its stream fails, the tick is flagged (it returns the monitor
    error), the offline write for [n] is tried in that tick, and every
    node after [n] is still probed.  When the registry accepts the write,
    every row under the key of [n] is offline when the tick ends; when it
    refuses the write, the error of the write is printed and the iteration
    of [n] leaves the rows as they were. *)
Theorem monitor_failed_probe (svc : MasterService) (w w1 w2 : World)
    (pre post : list Node) (n : Node) :
  updateMasterNodeStatus svc w = (None, w1) ->
  GetNodeList false w1 = (inr (pre ++ n :: post), w2) ->
  probe_ok n w = false ->
  let before := monitor_nodes svc pre false w2 in
  let after := monitor_node svc n before.1 before.2 in
  let out := monitor svc w in
  out.1 = Some ErrorNodeMonitorError
  /\ match next_fault before.2 with
     | None => offline_under (Key n) out.2
     | Some e => PrintError e ∈ log out.2
                 /\ rows (registry after.2) = rows (registry before.2)
     end
  /\ forall m, m ∈ post -> probed m after.2 out.2.
Proof.
  intros H1 H2 Hn before after out.
  assert (Hs : server w2 = server w).
  { pose proof (updateMasterNodeStatus_frame svc w) as (F1 & _).
    pose proof (GetNodeList_frame false w1) as (F2 & _).
    rewrite H1 in F1. rewrite H2 in F2. simpl in F1, F2. congruence. }
  assert (Hn3 : probe_ok n before.2 = false).
  { unfold before.
    rewrite (advances_probe_ok _ _ _ (advances_monitor_nodes svc pre false w2)).
    by rewrite (probe_ok_server _ _ _ Hs). }
  pose proof (monitor_node_failed_world svc n before.1 _ Hn3) as [Hflag Hoff].
  fold after in Hflag, Hoff.
  assert (Hloop : monitor_nodes svc (pre ++ n :: post) false w2
                  = monitor_nodes svc post true after.2).
  { rewrite monitor_nodes_app, monitor_nodes_cons. fold before. fold after.
    by rewrite Hflag. }
  assert (Hout : out = (Some ErrorNodeMonitorError,
                        (emit (PrintError ErrorNodeMonitorError)
                              (monitor_nodes svc post true after.2).2).2)).
  { unfold out. rewrite monitor_eq, H1, H2, Hloop.
    pose proof (monitor_nodes_flag svc post true after.2) as Hf.
    destruct (monitor_nodes svc post true after.2) as [f w5].
    simpl in Hf. by rewrite Hf. }
  assert (Hadv : advances after.2 out.2).
  { rewrite Hout. simpl.
    eapply advances_trans; [apply advances_monitor_nodes|].
    by apply advances_emit. }
  rewrite Hout at 1. split; [reflexivity|]. split.
  - destruct (next_fault before.2).
    + destruct Hoff as [Hp Hr].
      split; [by apply (advances_elem_log _ _ _ Hadv) | exact Hr].
    + by apply (adv_offline _ _ Hadv).
  - intros m Hm. rewrite Hout. simpl.
    eapply advances_probed; [by apply monitor_nodes_probed|].
    by apply advances_emit.
Qed.

Lemma monitor_failed_probe_witness :
  let w := world_two_workers [] in
  let w1 := (updateMasterNodeStatus svc_m1 w).2 in
  let w2 := (GetNodeList false w1).2 in
  let out := monitor svc_m1 w in
  out.1 = Some ErrorNodeMonitorError
  /\ offline_under "w1" out.2
  /\ forall m, m ∈ [worker "w2" 3] ->
               probed m (monitor_node svc_m1 (worker "w1" 2) false w2).2 out.2.
Proof.
  intros w w1 w2.
  assert (H1 : updateMasterNodeStatus svc_m1 w = (None, w1)) by reflexivity.
  assert (H2 : GetNodeList false w1 = (inr ([] ++ worker "w1" 2 :: [worker "w2" 3]), w2))
    by reflexivity.
  assert (H3 : probe_ok (worker "w1" 2) w = false) by reflexivity.
  exact (monitor_failed_probe svc_m1 w w1 w2 [] [worker "w2" 3] (worker "w1" 2)
                              H1 H2 H3).
Defined.

(** ** A worker whose heartbeat goes out *)

Lemma update_rows_other key f l i r :
  l !! i = Some r -> Key r <> key -> update_rows key f l !! i = Some r.
Proof.
  intros Hl Hk. rewrite update_rows_lookup, Hl. simpl.
  apply has_key_false in Hk. by rewrite Hk.
Qed.

Lemma monitor_node_row svc n b w i r :
  rows (registry w) !! i = Some r ->
  (Key n = Key r -> probe_ok n w = true) ->
  rows (registry (monitor_node svc n b w).2) !! i = Some r.
Proof.
  intros Hr Hk. destruct (probe_report n w) as [ev|] eqn:Hp.
  - rewrite (monitor_node_failed _ _ _ _ _ Hp), mark_failed_eq. simpl.
    assert (Hne : Key r <> Key n).
    { intros E. symmetry in E. apply Hk, probe_ok_true in E. congruence. }
    change (next_fault (set_log (log w ++ [ev]) w)) with (next_fault w).
    destruct (next_fault w); simpl; autorewrite with world; [done|].
    by apply update_rows_other.
  - rewrite (monitor_node_ok _ _ _ _ Hp). simpl. by rewrite pinged_registry.
Qed.

Lemma monitor_nodes_row svc l b w i r :
  rows (registry w) !! i = Some r ->
  (forall m, m ∈ l -> Key m = Key r -> probe_ok m w = true) ->
  rows (registry (monitor_nodes svc l b w).2) !! i = Some r.
Proof.
  revert b w. induction l as [|n l IH]; intros b w Hr Hl; [done|].
  rewrite monitor_nodes_cons. apply IH.
  - apply monitor_node_row; [done|]. apply Hl, list_elem_of_here.
  - intros m Hm Hk.
    rewrite (advances_probe_ok _ _ _ (advances_monitor_node svc n b w)).
    apply Hl; [by apply list_elem_of_further | done].
Qed.

(** C5. A successful heartbeat leaves the registry as it is: the
    iteration of a node whose probe succeeds makes no registry call,
    writes no line and keeps the flag; and over the whole tick, a row
    that is not under the master's key and whose key has only successful
    probes is at the end of the tick what it was at its start (status,
    active and active_ts included). *)
Theorem heartbeat_leaves_record (svc : MasterService) (w : World) :
  (forall n b,
     probe_ok n w = true ->
     let out := monitor_node svc n b w in
     out.1 = b /\ registry out.2 = registry w /\ log out.2 = log w
     /\ now out.2 = now w)
  /\ (forall i r,
        rows (registry w) !! i = Some r ->
        Key r <> master_key svc ->
        (forall m, m ∈ rows (registry w) -> Key m = Key r -> probe_ok m w = true) ->
        rows (registry (monitor svc w).2) !! i = Some r).
Proof.
  split.
  - intros n b Hn%probe_ok_true. cbv zeta.
    rewrite (monitor_node_ok _ _ _ _ Hn). simpl.
    by rewrite pinged_registry, pinged_log, pinged_now.
  - intros i r Hr Hk Hp. rewrite monitor_eq.
    pose proof (updateMasterNodeStatus_frame svc w) as (S1 & _).
    assert (R1 : rows (registry (updateMasterNodeStatus svc w).2) !! i = Some r).
    { rewrite updateMasterNodeStatus_eq.
      repeat case_match; simpl; autorewrite with world; try done.
      apply update_rows_other; [done|].
      match goal with
      | Hf : find _ _ = Some _ |- _ => apply find_has_key_Some in Hf as [_ ->]
      end. done. }
    assert (K1 : forall m, m ∈ rows (registry (updateMasterNodeStatus svc w).2) ->
                           Key m = Key r -> m ∈ rows (registry w)).
    { intros m. rewrite updateMasterNodeStatus_eq.
      repeat case_match; simpl; autorewrite with world; try done.
      intros (m0 & Hm0 & ->)%update_rows_elem.
      destruct (has_key _ m0) eqn:E; [|done].
      simpl. apply has_key_true in E.
      match goal with
      | Hf : find _ _ = Some _ |- _ => apply find_has_key_Some in Hf as [_ Hf]
      end. congruence. }
    destruct (updateMasterNodeStatus svc w) as [[err|] w1]; [exact R1|].
    simpl in S1, R1, K1.
    pose proof (GetNodeList_frame false w1) as (S2 & _ & _ & R2).
    pose proof (GetNodeList_eq false w1) as E2.
    destruct (GetNodeList false w1) as [[err|nodes] w2]; simpl in S2, R2.
    + destruct (decide (err = ErrNoDocuments)); simpl;
        autorewrite with world; by rewrite R2.
    + assert (Hnodes : forall m, m ∈ nodes -> m ∈ rows (registry w1)).
      { destruct (next_fault w1); [done|]. injection E2 as -> _.
        intros m Hm. by apply list_elem_of_filter in Hm as [_ Hm]. }
      assert (Hrow : rows (registry (monitor_nodes svc nodes false w2).2) !! i
                     = Some r).
      { apply monitor_nodes_row; [by rewrite R2|].
        intros m Hm Hkm. rewrite (probe_ok_server m w w2) by congruence.
        apply Hp; [|done]. apply K1; [|done]. by apply Hnodes. }
      destruct (monitor_nodes svc nodes false w2) as [[|] w3]; simpl in *;
        by autorewrite with world.
Qed.

Lemma heartbeat_leaves_record_witness :
  let w := world_two_workers [] in
  registry (monitor_node svc_m1 (worker "w2" 3) false w).2 = registry w
  /\ rows (registry (monitor svc_m1 w).2) !! 2%nat = Some (worker "w2" 3).
Proof.
  intros w.
  destruct (heartbeat_leaves_record svc_m1 w) as [Hnode Htick]. split.
  - apply (Hnode (worker "w2" 3) false). reflexivity.
  - apply Htick.
    + reflexivity.
    + discriminate.
    + intros m Hm Hk. unfold w, world_two_workers in Hm. simpl in Hm.
      apply elem_of_cons in Hm as [->|Hm]; [discriminate Hk|].
      apply elem_of_cons in Hm as [->|Hm]; [discriminate Hk|].
      apply list_elem_of_singleton in Hm as ->. reflexivity.
Defined.

(** ** What a tick returns *)

Lemma existsb_probe_failed l w :
  existsb (fun n => negb (probe_ok n w)) l = true
  <-> exists n, n ∈ l /\ probe_ok n w = false.
Proof.
  rewrite existsb_exists. split.
  - intros (n & Hin & Hn). exists n. split; [by apply list_elem_of_In|].
    by apply negb_true_iff.
  - intros (n & Hin & Hn). exists n. split; [by apply list_elem_of_In|].
    by apply negb_true_iff.
Qed.

(** C4. A tick returns the monitor error exactly when its loop over the
    enumerated nodes flagged a probe that failed (the registry itself
    never handing out the monitor error); and when the enumeration
    answers with mongo's no-documents error, or with no node at all, the
    tick returns success. *)
Theorem monitor_error_iff (svc : MasterService) (w : World) :
  Some ErrorNodeMonitorError ∉ faults (registry w) ->
  let out := monitor svc w in
  (out.1 = Some ErrorNodeMonitorError
   <-> exists w1 nodes w2,
         updateMasterNodeStatus svc w = (None, w1)
         /\ GetNodeList false w1 = (inr nodes, w2)
         /\ exists n, n ∈ nodes /\ probe_ok n w = false)
  /\ (forall w1 w2,
        updateMasterNodeStatus svc w = (None, w1) ->
        GetNodeList false w1 = (inl ErrNoDocuments, w2) ->
        out = (None, w2))
  /\ (forall w1 w2,
        updateMasterNodeStatus svc w = (None, w1) ->
        GetNodeList false w1 = (inr [], w2) ->
        out = (None, w2)).
Proof.
  intros Hf out. unfold out. rewrite monitor_eq.
  pose proof (updateMasterNodeStatus_faults svc w) as [F1 F1'].
  pose proof (updateMasterNodeStatus_frame svc w) as (S1 & _).
  destruct (updateMasterNodeStatus svc w) as [[err|] w1] eqn:H1;
    simpl in F1, F1', S1.
  { split; [|split; intros ? ? [=]].
    split.
    - intros [= ->]. destruct (F1 _ eq_refl); done.
    - intros (? & ? & ? & [=] & _). }
  pose proof (GetNodeList_frame false w1) as (S2 & _).
  destruct (GetNodeList false w1) as [[err|nodes] w2] eqn:H2; simpl in S2.
  - split; [|split; intros ? ? [= <-] H; rewrite H2 in H;
                    [injection H as -> ->; by rewrite decide_True
                    |discriminate H]].
    split.
    + destruct (decide (err = ErrNoDocuments)); [done|]. simpl.
      intros [= ->]. apply GetNodeList_faults in H2. exfalso. apply Hf.
      by apply F1'.
    + intros (? & ? & ? & [= <-] & H & _). rewrite H2 in H. discriminate H.
  - pose proof (monitor_nodes_flag svc nodes false w2) as Hflag.
    simpl in Hflag.
    assert (Hex : existsb (fun n => negb (probe_ok n w2)) nodes
                  = existsb (fun n => negb (probe_ok n w)) nodes).
    { apply existsb_congr. intros n. f_equal. apply probe_ok_server. congruence. }
    rewrite Hex in Hflag.
    assert (Hnil : nodes = [] -> monitor_nodes svc nodes false w2 = (false, w2))
      by (by intros ->).
    destruct (monitor_nodes svc nodes false w2) as [isErr w3]. simpl in Hflag.
    split; [|split].
    + split.
      * intros Hout. exists w1, nodes, w2. split; [done|]. split; [done|].
        apply existsb_probe_failed. rewrite <- Hflag.
        by destruct isErr.
      * intros (? & ? & ? & [= <-] & H & Hn). rewrite H2 in H.
        injection H as <- <-.
        apply existsb_probe_failed in Hn. rewrite <- Hflag in Hn. by rewrite Hn.
    + intros ? ? [= <-] H. rewrite H2 in H. discriminate H.
    + intros ? ? [= <-] H. rewrite H2 in H. injection H as -> ->.
      by injection (Hnil eq_refl) as -> ->.
Qed.

Lemma monitor_error_iff_witness :
  let w := world_two_workers [] in
  (monitor svc_m1 w).1 = Some ErrorNodeMonitorError
  <-> exists w1 nodes w2,
        updateMasterNodeStatus svc_m1 w = (None, w1)
        /\ GetNodeList false w1 = (inr nodes, w2)
        /\ exists n, n ∈ nodes /\ probe_ok n w = false.
Proof.
  intros w. apply (monitor_error_iff svc_m1 w).
  unfold w, world_two_workers. simpl. apply not_elem_of_nil.
Defined.

(** ** A tick whose refresh of the master's row fails *)

(** A refresh that fails has made no write. *)
Lemma updateMasterNodeStatus_failed svc w e :
  (updateMasterNodeStatus svc w).1 = Some e ->
  rows (registry (updateMasterNodeStatus svc w).2) = rows (registry w).
Proof.
  rewrite updateMasterNodeStatus_eq.
  repeat case_match; simpl; autorewrite with world; done.
Qed.

(** Whether the refresh fails does not depend on the log. *)
Lemma updateMasterNodeStatus_set_log svc l w :
  (updateMasterNodeStatus svc (set_log l w)).1 = (updateMasterNodeStatus svc w).1.
Proof.
  rewrite !updateMasterNodeStatus_eq.
  change (next_fault (set_log l w)) with (next_fault w).
  change (rows (registry (set_log l w))) with (rows (registry w)).
  destruct (next_fault w); [reflexivity|].
  destruct (find _ _); [|reflexivity].
  assert (H : next_fault (after_fault (set_log l w)) = next_fault (after_fault w)).
  { unfold after_fault, take_fault, next_fault. simpl.
    by destruct (faults (registry w)). }
  rewrite H. by destruct (next_fault (after_fault w)).
Qed.

Lemma monitor_failed_refresh svc w e :
  (updateMasterNodeStatus svc w).1 = Some e ->
  monitor svc w = updateMasterNodeStatus svc w.
Proof.
  intros H. rewrite monitor_eq.
  destruct (updateMasterNodeStatus svc w) as [[err|] w1]; [reflexivity|done].
Qed.

(** C3 as it is stated fails: the refresh fails, [stop_on_error] is
    off, and the healthy worker [w2] gets no heartbeat in that tick. *)
Lemma tick_stops_after_failed_refresh : ~ tick_continues_after_failed_refresh.
Proof.
  intros H.
  specialize (H svc_m1 (world_two_workers [Some registry_unavailable])
                registry_unavailable eq_refl eq_refl (worker "w2" 3)).
  assert (Hin : worker "w2" 3
                ∈ rows (registry (world_two_workers [Some registry_unavailable])))
    by (unfold world_two_workers; simpl; set_solver).
  specialize (H Hin eq_refl). vm_compute in H. lia.
Qed.

(** C3, amended. When the refresh of the master's row fails, the tick
    ends there: it returns that error, and no worker has been enumerated
    or probed (the server, the rows and the log are what they were).  The
    loop prints the error; under [stop_on_error] it stops the service and
    returns, otherwise it sleeps [monitor_interval] and goes round again,
    so the workers are probed in the next tick at the earliest. *)
Theorem failed_refresh_ends_tick (svc : MasterService) (w : World) (e : error) :
  (updateMasterNodeStatus svc w).1 = Some e ->
  let tick := monitor svc w in
  let out := Monitor_body svc w in
  tick.1 = Some e
  /\ server tick.2 = server w
  /\ rows (registry tick.2) = rows (registry w)
  /\ log tick.2 = log w
  /\ (if stopOnError svc
      then out.1 = false
           /\ log out.2 = log w ++ [TickBegin; TickEnd (Some e); PrintError e;
                                    ServerStop;
                                    Infof "master[%s] service has stopped"
                                          [ArgS (master_key svc)]]
           /\ running (server out.2) = false
      else out.1 = true
           /\ log out.2 = log w ++ [TickBegin; TickEnd (Some e); PrintError e;
                                    Sleep (monitorInterval svc)]
           /\ server out.2 = server w)
  /\ rows (registry out.2) = rows (registry w).
Proof.
  intros H tick out.
  pose proof (updateMasterNodeStatus_frame svc w) as (S & L & _).
  unfold tick. rewrite (monitor_failed_refresh _ _ _ H).
  split; [done|]. split; [done|].
  split; [by apply (updateMasterNodeStatus_failed _ _ e)|]. split; [done|].
  assert (H' : (updateMasterNodeStatus svc (emit TickBegin w).2).1 = Some e)
    by (simpl; by rewrite updateMasterNodeStatus_set_log).
  pose proof (updateMasterNodeStatus_frame svc (emit TickBegin w).2)
    as (S' & L' & _).
  pose proof (updateMasterNodeStatus_failed _ _ _ H') as R'.
  unfold out. rewrite Monitor_body_eq. cbv zeta.
  rewrite (monitor_failed_refresh _ _ _ H'), H'.
  simpl in S', L', R'.
  destruct (stopOnError svc); simpl; rewrite ?L', ?S', ?R'; simpl;
    rewrite <- ?app_assoc; done.
Qed.

Lemma failed_refresh_ends_tick_witness :
  let w := world_two_workers [Some registry_unavailable] in
  (monitor svc_m1 w).1 = Some registry_unavailable
  /\ server (monitor svc_m1 w).2 = server w
  /\ (Monitor_body svc_m1 w).1 = true.
Proof.
  intros w.
  destruct (failed_refresh_ends_tick svc_m1 w registry_unavailable eq_refl)
    as (H1 & H2 & _ & _ & H3 & _).
  simpl in H3. destruct H3 as (H3 & _). by repeat split.
Defined.

(** ** The monitor loop and its sleep *)


(** ** The order of [Start] *)

(** C7. In every run of the process, whatever the interleaving: the
    server is started before registration begins, registration has
    succeeded before the monitor goroutine is spawned and before any tick
    begins, the monitor is spawned before [Wait] returns, [Wait] returns
    only after the quit signal, and when [Start] has returned the server
    was stopped after [Wait] returned.  A start that panics has spawned no
    monitor and begun no tick. *)
Theorem Start_runs_in_order (svc : MasterService) (w : World) (sched : list choice) :
  let p := run svc sched (boot w) in
  let l := log (world p) in
  precedes ServerStart RegisterBegin l
  /\ precedes (RegisterEnd None) GoMonitor l
  /\ precedes GoMonitor WaitReturned l
  /\ (main p = Returned ->
      exists l1 l2, l = l1 ++ WaitReturned :: l2 /\ ServerStop ∈ l2)
  /\ precedes (RegisterEnd None) TickBegin l
  /\ (WaitReturned ∈ l -> quit p = true)
  /\ (forall e, main p = Panicked e ->
                monitor_thread p = NotSpawned /\ TickBegin ∉ l).
Proof.
  intros p l.
  pose proof (run_inv svc sched (boot w) (boot_inv w)) as [O Ph Sp Q].
  fold p in O, Ph, Sp, Q. fold l in O, Ph, Sp, Q. destruct O as [O1 O2 O3 O4 O5].
  repeat split; try done.
  - intros Hm. rewrite Hm in Ph. by destruct Ph.
  - rewrite H in Ph. by destruct Ph.
  - rewrite H in Ph. by destruct Ph as (_ & _ & T & _).
Qed.

Lemma Start_runs_in_order_witness :
  let p := run svc_m1 sched_full (boot world_empty) in
  exists l1 l2,
    log (world p) = l1 ++ WaitReturned :: l2 /\ ServerStop ∈ l2.
Proof.
  intros p.
  destruct (Start_runs_in_order svc_m1 world_empty sched_full) as (_ & _ & _ & H & _).
  apply H. reflexivity.
Defined.

(** The run [sched_full] goes through every step of [Start]. *)
Example Start_full_run :
  let p := run svc_m1 sched_full (boot world_empty) in
  main p = Returned
  /\ List.filter milestone (log (world p))
     = [ServerStart; RegisterBegin; RegisterEnd None; GoMonitor; TickBegin;
        WaitReturned; ServerStop].
Proof. split; reflexivity. Qed.

(** ** [Stop] and the monitor loop *)

Lemma Stop_server svc w :
  running (server (Stop svc w).2) = false /\ subs (server (Stop svc w).2) = ∅.
Proof. unfold Stop, bind. simpl. done. Qed.

(** C8 as it is stated fails: the main goroutine has stopped the
    server and [Start] has returned, and the monitor goroutine, next to
    move, begins a tick. *)
Lemma monitor_ticks_after_stop : ~ no_tick_after_stop.
Proof.
  intros H.
  pose (l := log (world (run svc_m1 sched_tick_after_stop (boot world_empty)))).
  specialize (H svc_m1 world_empty sched_tick_after_stop
                (take 7 l) (drop 8 l) eq_refl).
  apply H. apply list_elem_of_In. vm_compute. tauto.
Qed.

(** C8, amended. [Stop] stops the stream server and closes its
    subscriptions, and that is all: the monitor loop makes no check for
    it.  Let go round after [Stop], also after [Start] has returned, the
    loop begins its next tick; it returns only when that tick returns an
    error and [stop_on_error] is set. *)
Theorem Stop_leaves_monitor_looping (svc : MasterService) (w : World) :
  let w' := (Stop svc w).2 in
  let out := Monitor_body svc w' in
  running (server w') = false
  /\ subs (server w') = ∅
  /\ (exists l, log out.2 = log w' ++ TickBegin :: l)
  /\ (out.1 = false
      <-> stopOnError svc = true
          /\ is_Some (monitor svc (emit TickBegin w').2).1)
  /\ (forall p,
        main p = Returned ->
        monitor_thread p = Looping ->
        exists l,
          log (world (step svc RunMonitor p)) = log (world p) ++ TickBegin :: l).
Proof.
  intros w' out. destruct (Stop_server svc w) as [R S].
  split; [exact R|]. split; [exact S|]. split; [|split].
  - destruct (Monitor_body_events svc w') as (l & L & _). by exists l.
  - unfold out. rewrite Monitor_body_eq. cbv zeta.
    destruct (monitor svc _) as [[e|] w1]; simpl.
    + destruct (stopOnError svc); simpl.
      * split; [intros _; split; [done | by eexists] | done].
      * split; [done | by intros [? _]].
    + split; [done|]. intros [_ [? ?]]. done.
  - intros p _ Ht. unfold step. rewrite Ht.
    destruct (Monitor_body_events svc (world p)) as (l & L & _).
    destruct (Monitor_body svc (world p)) as [again w1]. by exists l.
Qed.

Lemma Stop_leaves_monitor_looping_witness :
  let p := run svc_m1 [RunMain; RunMain; RunMain; Signal; RunMain; RunMain]
               (boot world_empty) in
  exists l,
    log (world (step svc_m1 RunMonitor p)) = log (world p) ++ TickBegin :: l.
Proof.
  intros p.
  destruct (Stop_leaves_monitor_looping svc_m1 world_empty)
    as (_ & _ & _ & _ & H).
  apply H; reflexivity.
Defined.

(** ** Construction and the monitor interval *)

(** C9 as it is stated fails: the setter takes half a second. *)
Lemma monitor_interval_unchecked : ~ monitor_interval_at_least_1s.
Proof.
  intros H. specialize (H (500 * Millisecond) svc_m1).
  vm_compute in H. by apply H.
Qed.

(** C9, amended. A master service built with no options has a monitor
    interval of 60 seconds, [stop_on_error] off and the default
    configuration path; [SetMonitorInterval] stores the duration it is
    given, whatever it is, and so does construction with the option of
    that name: no lower bound is checked. *)
Theorem NewMasterService_defaults (DefaultConfigPath : string) (c : Container) :
  (forall svc,
     NewMasterService DefaultConfigPath c [] = inr svc ->
     monitorInterval svc = 60 * Second
     /\ stopOnError svc = false
     /\ cfgPath svc = DefaultConfigPath)
  /\ (forall d svc,
        monitorInterval (SetMonitorInterval d svc) = d
        /\ stopOnError (SetMonitorInterval d svc) = stopOnError svc
        /\ cfgSvc (SetMonitorInterval d svc) = cfgSvc svc)
  /\ (forall d svc,
        NewMasterService DefaultConfigPath c [WithMonitorInterval d] = inr svc ->
        monitorInterval svc = d)
  /\ (provide_model c = None -> provide_config c = None ->
      provide_server c = None -> invoke c = None ->
      forall opts, exists svc, NewMasterService DefaultConfigPath c opts = inr svc).
Proof.
  split; [|split; [|split]].
  - intros svc H. unfold NewMasterService in H.
    repeat case_match; simplify_eq. done.
  - done.
  - intros d svc H. unfold NewMasterService in H.
    repeat case_match; simplify_eq. done.
  - intros H1 H2 H3 H4 opts. unfold NewMasterService.
    rewrite H1, H2, H3, H4. simpl. by eexists.
Qed.

Lemma NewMasterService_defaults_witness :
  (exists svc,
     NewMasterService "config.json" container_ok [] = inr svc
     /\ monitorInterval svc = 60 * Second /\ stopOnError svc = false)
  /\ (exists svc,
        NewMasterService "config.json" container_ok
                         [WithMonitorInterval (500 * Millisecond)] = inr svc
        /\ monitorInterval svc = 500 * Millisecond).
Proof.
  destruct (NewMasterService_defaults "config.json" container_ok)
    as (Hd & _ & Hi & Hex).
  split.
  - destruct (Hex eq_refl eq_refl eq_refl eq_refl []) as (svc & Hs).
    exists svc. destruct (Hd svc Hs) as (? & ? & _). done.
  - destruct (Hex eq_refl eq_refl eq_refl eq_refl
                  [WithMonitorInterval (500 * Millisecond)]) as (svc & Hs).
    exists svc. split; [done|]. by apply Hi.
Defined.

(** ** How [Register] tells that the master is absent *)

(** C10. [Register] reads the text of the error of the lookup: when the
    lookup fails with any error whose text is that of mongo's
    no-documents error, the sentinel itself or not, [Register] takes the
    not-exists branch (it writes that line and calls the insert) and does
    not hand the error of the lookup back: what it returns is what the
    insert answers. *)
Theorem Register_reads_message (svc : MasterService) (w : World) (e : error) :
  next_fault w = Some e ->
  Error e = Error ErrNoDocuments ->
  let key := master_key svc in
  let out := Register svc w in
  Infof "master[%s] does not exist in db" [ArgS key] ∈ log out.2
  /\ match next_fault (after_fault w) with
     | Some e' => out.1 = Some e'
     | None =>
         match find (has_key key) (rows (registry w)) with
         | Some _ =>
             out.1 = Some duplicate_key
             /\ rows (registry out.2) = rows (registry w)
         | None =>
             out.1 = None
             /\ rows (registry out.2)
                = rows (registry w)
                  ++ [fresh_master key (next_id (registry w)) (now w)]
         end
     end.
Proof.
  intros Hf He key out. unfold out. rewrite Register_eq. cbv zeta. fold key.
  rewrite Hf. rewrite decide_True by done.
  change (next_fault (snd (emit _ (after_fault w))))
    with (next_fault (after_fault w)).
  destruct (next_fault (after_fault w)).
  - simpl. rewrite after_fault_log. simpl. split; [set_solver | done].
  - destruct (find _ _); simpl;
      rewrite ?inserted_log, ?after_fault_log; simpl;
      autorewrite with world; (split; [set_solver | done]).
Qed.

Lemma Register_reads_message_witness :
  let w := mkWorld (registry_of [] [Some no_documents_lookalike])
                   (mkServer false None ∅) 0 [] in
  no_documents_lookalike <> ErrNoDocuments
  /\ (Register svc_m1 w).1 = None
  /\ rows (registry (Register svc_m1 w).2) = [fresh_master "m1" 1 0].
Proof.
  intros w. split; [discriminate|].
  destruct (Register_reads_message svc_m1 w no_documents_lookalike
                                   eq_refl eq_refl) as [_ H].
  exact H.
Defined.

(** ** The scenarios of the specification *)

(** S1: started on an empty registry, the master is its only row, a
    master row that is online. *)
Example scenario_S1 :
  let p := run svc_m1 [RunMain; RunMain; RunMain] (boot world_empty) in
  main p = AtWait
  /\ rows (registry (world p)) = [fresh_master "m1" 1 0].
Proof. split; reflexivity. Qed.

(** S2: a worker in the registry that never connects is offline after the
    first tick. *)
Example scenario_S2 :
  let p := run (SetMonitorInterval (100 * Millisecond) svc_m1)
               [RunMain; RunMain; RunMain; RunMonitor] (boot world_worker_only) in
  statuses (world p) = [("w1", "offline"); ("m1", "online")]
  /\ now (world p) = 100 * Millisecond.
Proof. split; reflexivity. Qed.

(** S4: the send to [w1] fails, [w2] is healthy: after one tick [w1] is
    offline, [w2] is what it was and has its heartbeat, and the tick
    returned the monitor error. *)
Example scenario_S4 :
  let out := monitor svc_m1 world_broken_stream in
  out.1 = Some ErrorNodeMonitorError
  /\ statuses out.2 = [("m1", "online"); ("w1", "offline"); ("w2", "online")]
  /\ rows (registry out.2) !! 2%nat = Some (worker "w2" 3)
  /\ sent <$> subs (server out.2) !! "w2" = Some [heartbeat svc_m1]
  /\ sent <$> subs (server out.2) !! "w1" = Some [].
Proof. repeat split; reflexivity. Qed.

(** S6: with [stop_on_error] set, a tick during which the registry is
    unavailable ends the monitor loop and stops the server. *)
Example scenario_S6 :
  let out := Monitor 3 (StopOnError svc_m1)
                     (world_two_workers [Some registry_unavailable]) in
  out.1 = false
  /\ running (server out.2) = false
  /\ List.filter milestone (log out.2) = [TickBegin; ServerStop].
Proof. repeat split; reflexivity. Qed.

(** * Further properties *)

(** ** The monitor loop over many rounds *)

Lemma tick_count_app l l' : tick_count (l ++ l') = (tick_count l + tick_count l')%nat.
Proof. unfold tick_count. by rewrite List.filter_app, length_app. Qed.

Lemma sleep_count_app l l' :
  sleep_count (l ++ l') = (sleep_count l + sleep_count l')%nat.
Proof. unfold sleep_count. by rewrite List.filter_app, length_app. Qed.

Lemma plain_no_tick l : Forall plain_line l -> tick_count l = 0%nat.
Proof.
  induction 1 as [|e l He _ IH]; [done|].
  unfold tick_count in *. by destruct e.
Qed.

Lemma plain_no_sleep l : Forall plain_line l -> sleep_count l = 0%nat.
Proof.
  induction 1 as [|e l He _ IH]; [done|].
  unfold sleep_count in *. by destruct e.
Qed.

(** What one round of the loop adds to the log and to the clock. *)
Lemma Monitor_body_round svc w :
  let out := Monitor_body svc w in
  exists l,
    log out.2 = log w ++ l
    /\ tick_count l = 1%nat
    /\ if out.1
       then sleep_count l = 1%nat
            /\ now out.2 = now w + Z.max 0 (monitorInterval svc)
       else sleep_count l = 0%nat
            /\ now out.2 = now w
            /\ stopOnError svc = true
            /\ running (server out.2) = false
            /\ subs (server out.2) = ∅
            /\ exists e l0,
                 l = l0 ++ [TickEnd (Some e); PrintError e; ServerStop;
                            Infof "master[%s] service has stopped"
                                  [ArgS (master_key svc)]].
Proof.
  intros out. unfold out. rewrite Monitor_body_eq. cbv zeta.
  destruct (monitor_quiet svc (emit TickBegin w).2) as (N & l & L & F).
  simpl in N, L.
  pose proof (plain_no_tick _ F) as T. pose proof (plain_no_sleep _ F) as S1.
  destruct (monitor svc _) as [[e|] w1]; simpl in *.
  - destruct (stopOnError svc); simpl.
    + exists (TickBegin :: l ++ [TickEnd (Some e); PrintError e; ServerStop;
                                 Infof "master[%s] service has stopped"
                                       [ArgS (master_key svc)]]).
      split; [rewrite L, <- !app_assoc; reflexivity|].
      change (TickBegin :: ?x) with ([TickBegin] ++ x).
      rewrite !tick_count_app, !sleep_count_app, T, S1.
      repeat split; try done. by exists e, (TickBegin :: l).
    + exists (TickBegin :: l ++ [TickEnd (Some e); PrintError e;
                                 Sleep (monitorInterval svc)]).
      split; [rewrite L, <- !app_assoc; reflexivity|].
      change (TickBegin :: ?x) with ([TickBegin] ++ x).
      rewrite !tick_count_app, !sleep_count_app, T, S1.
      repeat split; try done; simpl; lia.
  - exists (TickBegin :: l ++ [TickEnd None; Sleep (monitorInterval svc)]).
    split; [rewrite L, <- !app_assoc; reflexivity|].
    change (TickBegin :: ?x) with ([TickBegin] ++ x).
    rewrite !tick_count_app, !sleep_count_app, T, S1.
    repeat split; try done; simpl; lia.
Qed.


Lemma Monitor_S svc w k :
  Monitor (S k) svc w
  = if (Monitor_body svc w).1 then Monitor k svc (Monitor_body svc w).2
    else (false, (Monitor_body svc w).2).
Proof. simpl. unfold bind. by destruct (Monitor_body svc w) as [[|] w']. Qed.



(** X2. When the loop has returned, [stop_on_error] is set, the last tick
    returned an error, and the loop has stopped the server and closed its
    subscriptions: the log ends with the end of that tick, the error
    printed, the stop of the server and the line of [Stop]. *)
Theorem Monitor_returns_stopped (svc : MasterService) (w : World) (k : nat) :
  let out := Monitor k svc w in
  out.1 = false ->
  stopOnError svc = true
  /\ running (server out.2) = false
  /\ subs (server out.2) = ∅
  /\ exists e l0,
       log out.2 = l0 ++ [TickEnd (Some e); PrintError e; ServerStop;
                          Infof "master[%s] service has stopped"
                                [ArgS (master_key svc)]].
Proof.
  revert w. induction k as [|k IH]; intros w; [done|].
  cbv zeta. rewrite Monitor_S.
  destruct (Monitor_body_round svc w) as (l & L & T & R).
  destruct (Monitor_body svc w).1.
  - apply IH.
  - simpl. intros _. destruct R as (_ & _ & Hs & Hr & Hsub & e & l0 & ->).
    repeat split; try done. exists e, (log w ++ l0). by rewrite L, app_assoc.
Qed.

Lemma Monitor_returns_stopped_witness :
  let out := Monitor 3 (StopOnError svc_m1)
                     (world_two_workers [Some registry_unavailable]) in
  running (server out.2) = false /\ subs (server out.2) = ∅.
Proof.
  destruct (Monitor_returns_stopped
              (StopOnError svc_m1)
              (world_two_workers [Some registry_unavailable]) 3 eq_refl)
    as (_ & H1 & H2 & _).
  split; [exact H1 | exact H2].
Defined.


(** ** What a tick does to the rows and to the streams *)

Section RowRelation.

Variable mk : string.
Variable R : Node -> Node -> Prop.
Hypothesis R_refl : forall r, R r r.
Hypothesis R_trans : forall r1 r2 r3, R r1 r2 -> R r2 r3 -> R r1 r3.
Hypothesis R_offline : forall r, R r (go_offline r).
Hypothesis R_online : forall t r, Key r = mk -> R r (go_online t r).

Lemma Forall2_R_refl l : Forall2 R l l.
Proof. induction l; by constructor. Qed.

Lemma Forall2_R_trans l1 l2 l3 :
  Forall2 R l1 l2 -> Forall2 R l2 l3 -> Forall2 R l1 l3.
Proof.
  intros H. revert l3. induction H as [|a b l1 l2 Hab _ IH]; intros l3 H3.
  - by inversion H3.
  - inversion H3; subst. constructor; [by eapply R_trans | by apply IH].
Qed.

Lemma update_rows_R key f l :
  (forall r, Key r = key -> R r (f r)) -> Forall2 R l (update_rows key f l).
Proof.
  intros Hf. unfold update_rows. induction l as [|a l IH]; simpl; constructor;
    [|exact IH].
  destruct (has_key key a) eqn:E; [|apply R_refl].
  apply Hf. by apply has_key_true.
Qed.

Lemma mark_failed_R n w :
  Forall2 R (rows (registry w)) (rows (registry (mark_failed n w).2)).
Proof.
  rewrite mark_failed_eq. cbn [snd]. destruct (next_fault w).
  - cbn [snd emit]. autorewrite with world. apply Forall2_R_refl.
  - rewrite written_rows. apply update_rows_R. intros r _. apply R_offline.
Qed.

Lemma monitor_node_R svc n b w :
  Forall2 R (rows (registry w)) (rows (registry (monitor_node svc n b w).2)).
Proof.
  destruct (probe_report n w) as [ev|] eqn:H.
  - rewrite (monitor_node_failed _ _ _ _ _ H).
    apply (mark_failed_R n (emit ev w).2).
  - rewrite (monitor_node_ok _ _ _ _ H). simpl. rewrite pinged_registry.
    apply Forall2_R_refl.
Qed.

Lemma monitor_nodes_R svc l b w :
  Forall2 R (rows (registry w)) (rows (registry (monitor_nodes svc l b w).2)).
Proof.
  revert b w. induction l as [|n l IH]; intros b w.
  - apply Forall2_R_refl.
  - rewrite monitor_nodes_cons.
    eapply Forall2_R_trans; [apply monitor_node_R | apply IH].
Qed.

Lemma updateMasterNodeStatus_R svc w :
  master_key svc = mk ->
  Forall2 R (rows (registry w)) (rows (registry (updateMasterNodeStatus svc w).2)).
Proof.
  intros Hk. rewrite updateMasterNodeStatus_eq. rewrite Hk.
  destruct (next_fault w); cbn [snd];
    [rewrite after_fault_rows; apply Forall2_R_refl|].
  destruct (find (has_key mk) (rows (registry w))) as [n|] eqn:Hf; cbn [snd];
    [|rewrite after_fault_rows; apply Forall2_R_refl].
  apply find_has_key_Some in Hf as [_ Hn].
  destruct (next_fault (after_fault w)); cbn [snd].
  - rewrite !after_fault_rows. apply Forall2_R_refl.
  - rewrite written_rows, after_fault_rows. apply update_rows_R.
    intros r Hr. apply R_online. congruence.
Qed.

Lemma monitor_R svc w :
  master_key svc = mk ->
  Forall2 R (rows (registry w)) (rows (registry (monitor svc w).2)).
Proof.
  intros Hk. rewrite monitor_eq.
  pose proof (updateMasterNodeStatus_R svc w Hk) as H1.
  destruct (updateMasterNodeStatus svc w) as [[err|] w1]; [exact H1|].
  simpl in H1. eapply Forall2_R_trans; [exact H1|].
  pose proof (GetNodeList_frame false w1) as (_ & _ & _ & R2).
  destruct (GetNodeList false w1) as [[err|nodes] w2]; simpl in R2.
  - destruct (decide (err = ErrNoDocuments)); simpl; autorewrite with world;
      rewrite R2; apply Forall2_R_refl.
  - rewrite <- R2.
    pose proof (monitor_nodes_R svc nodes false w2) as H3.
    destruct (monitor_nodes svc nodes false w2) as [[|] w3]; simpl in *;
      by autorewrite with world.
Qed.

End RowRelation.

Lemma go_offline_idemp r : go_offline (go_offline r) = go_offline r.
Proof. reflexivity. Qed.

Lemma monitor_same_identity svc w :
  Forall2 same_identity (rows (registry w)) (rows (registry (monitor svc w).2)).
Proof.
  apply (monitor_R (master_key svc)).
  - intros r. by unfold same_identity.
  - intros r1 r2 r3 (?&?&?&?&?) (?&?&?&?&?). unfold same_identity.
    repeat split; congruence.
  - intros r. by unfold same_identity.
  - intros t r _. by unfold same_identity.
  - reflexivity.
Qed.

(** X4. A tick adds no row and removes none, and of each row it changes
    nothing but status, active and active_ts: ids, keys, names, master
    flags and enabled flags are, row by row, what they were, whatever the
    registry and the streams answer. *)
Theorem monitor_keeps_identity (svc : MasterService) (w : World) :
  Forall2 same_identity (rows (registry w)) (rows (registry (monitor svc w).2))
  /\ length (rows (registry (monitor svc w).2)) = length (rows (registry w)).
Proof.
  pose proof (monitor_same_identity svc w) as H.
  split; [exact H|]. symmetry. by eapply Forall2_length.
Qed.

(** X5. A tick never brings a worker online: a row that is not under the
    master's key is after the tick what it was, or that row set offline
    (its active flag and active_ts untouched). *)
Theorem monitor_never_onlines_worker (svc : MasterService) (w : World)
    (i : nat) (r : Node) :
  rows (registry w) !! i = Some r ->
  Key r <> master_key svc ->
  rows (registry (monitor svc w).2) !! i = Some r
  \/ rows (registry (monitor svc w).2) !! i = Some (go_offline r).
Proof.
  intros Hr Hk.
  assert (H : Forall2 (worker_step (master_key svc)) (rows (registry w))
                      (rows (registry (monitor svc w).2))).
  { apply (monitor_R (master_key svc)).
    - intros r0. split; [done | by left].
    - intros r1 r2 r3 [K1 S1] [K2 S2]. split; [congruence|].
      intros Hne. destruct (S1 Hne) as [->| ->].
      + by apply S2.
      + destruct S2 as [->| ->]; [done| | ]; by right.
    - intros r0. split; [done | by right].
    - intros t r0 Hr0. split; [done | done].
    - reflexivity. }
  destruct (Forall2_lookup_l _ _ _ _ _ H Hr) as (r' & Hr' & [_ Hs]).
  rewrite Hr'. destruct (Hs Hk) as [->| ->]; [by left | by right].
Qed.

Lemma monitor_never_onlines_worker_witness :
  let w := world_two_workers [] in
  rows (registry (monitor svc_m1 w).2) !! 1%nat = Some (worker "w1" 2)
  \/ rows (registry (monitor svc_m1 w).2) !! 1%nat
     = Some (go_offline (worker "w1" 2)).
Proof.
  intros w.
  apply (monitor_never_onlines_worker svc_m1 w 1 (worker "w1" 2));
    [reflexivity | discriminate].
Defined.

Lemma GetNodeList_nodes m w nodes w1 :
  GetNodeList m w = (inr nodes, w1) ->
  nodes = filter (fun n => IsMaster n = m) (rows (registry w)).
Proof.
  rewrite GetNodeList_eq. destruct (next_fault w); [done|]. by intros [= <- _].
Qed.

(** The rows after a refresh of the master's row that went through. *)
Lemma updateMasterNodeStatus_ok svc w w1 :
  updateMasterNodeStatus svc w = (None, w1) ->
  rows (registry w1)
  = update_rows (master_key svc) (go_online (now w)) (rows (registry w)).
Proof.
  rewrite updateMasterNodeStatus_eq.
  destruct (next_fault w); [done|].
  destruct (find _ _) as [n|] eqn:Hf; [|done].
  destruct (next_fault (after_fault w)); [done|].
  intros [= <-]. rewrite written_rows, after_fault_rows.
  by apply find_has_key_Some in Hf as [_ ->].
Qed.

(** X6. A tick whose refresh went through leaves the master's row
    refreshed: when the rows under the master's key are master rows, each
    of them is online and active at the end of the tick, with the time of
    the tick as active_ts, whatever the probes of the workers found. *)
Theorem monitor_refreshes_master (svc : MasterService) (w : World) :
  (updateMasterNodeStatus svc w).1 = None ->
  (forall r, r ∈ rows (registry w) -> Key r = master_key svc -> IsMaster r = true) ->
  forall r,
    r ∈ rows (registry (monitor svc w).2) ->
    Key r = master_key svc ->
    Status r = NodeStatusOnline /\ Active r = true /\ ActiveTs r = now w.
Proof.
  intros Hu Hm r Hr Hk.
  apply list_elem_of_lookup in Hr as [i Hi].
  destruct (updateMasterNodeStatus svc w) as [u w1] eqn:E1. simpl in Hu. subst u.
  pose proof (updateMasterNodeStatus_ok _ _ _ E1) as R1.
  (* the row at [i] after the refresh *)
  assert (Hrow : exists r0, rows (registry w) !! i = Some r0
                            /\ Key r0 = master_key svc
                            /\ rows (registry w1) !! i
                               = Some (go_online (now w) r0)
                            /\ rows (registry (monitor svc w).2) !! i
                               = Some (go_online (now w) r0)).
  { pose proof (monitor_same_identity svc w) as Hid.
    destruct (Forall2_lookup_r _ _ _ _ _ Hid Hi) as (r0 & Hr0 & (_ & K & _)).
    exists r0. split; [exact Hr0|]. split; [congruence|].
    assert (R1i : rows (registry w1) !! i = Some (go_online (now w) r0)).
    { rewrite R1, update_rows_lookup, Hr0. simpl.
      assert (has_key (master_key svc) r0 = true) as ->
        by (apply has_key_true; congruence).
      reflexivity. }
    split; [exact R1i|].
    rewrite monitor_eq, E1.
    pose proof (GetNodeList_frame false w1) as (_ & _ & _ & R2).
    destruct (GetNodeList false w1) as [[err|nodes] w2] eqn:E2; simpl in R2.
    - destruct (decide (err = ErrNoDocuments)); simpl; autorewrite with world;
        by rewrite R2.
    - apply GetNodeList_nodes in E2.
      assert (Hrow : rows (registry (monitor_nodes svc nodes false w2).2) !! i
                     = Some (go_online (now w) r0)).
      { apply monitor_nodes_row; [by rewrite R2|].
        intros m Hin Hkm. exfalso. subst nodes.
        apply list_elem_of_filter in Hin as [Hmf Hin].
        rewrite R1 in Hin. apply update_rows_elem in Hin as (m0 & Hm0 & ->).
        assert (Key m0 = master_key svc).
        { destruct (has_key _ m0); simpl in Hkm; congruence. }
        specialize (Hm m0 Hm0 H).
        destruct (has_key _ m0); simpl in Hmf; congruence. }
      destruct (monitor_nodes svc nodes false w2) as [[|] w3]; simpl in *;
        by autorewrite with world. }
  destruct Hrow as (r0 & _ & _ & _ & Hfin). rewrite Hfin in Hi.
  injection Hi as <-. done.
Qed.

Lemma monitor_refreshes_master_witness :
  let r := go_online 100 (fresh_master "m1" 1 0) in
  Status r = NodeStatusOnline /\ Active r = true /\ ActiveTs r = 100.
Proof.
  intros r.
  apply (monitor_refreshes_master svc_m1 world_broken_stream).
  - reflexivity.
  - intros r0 Hr Hk. unfold world_broken_stream in Hr. simpl in Hr.
    apply elem_of_cons in Hr as [->|Hr]; [reflexivity|].
    apply elem_of_cons in Hr as [->|Hr]; [discriminate Hk|].
    apply list_elem_of_singleton in Hr as ->. discriminate Hk.
  - apply list_elem_of_lookup. exists 0%nat. reflexivity.
  - reflexivity.
Defined.

(** X9. A master that is not in the registry cannot complete a tick: with
    no row under its key the tick fails in the refresh (with mongo's
    no-documents error when the lookup itself goes through), before any
    worker is enumerated or probed; and under [stop_on_error] the first
    round of the loop stops the service. *)
Theorem monitor_unregistered_master (svc : MasterService) (w : World) (k : nat) :
  find (has_key (master_key svc)) (rows (registry w)) = None ->
  (exists e,
     monitor svc w = (Some e, after_fault w)
     /\ (next_fault w = None -> e = ErrNoDocuments))
  /\ (stopOnError svc = true -> (Monitor (S k) svc w).1 = false).
Proof.
  intros Hf.
  assert (Hm : forall l, exists e,
             monitor svc (set_log l w) = (Some e, after_fault (set_log l w))
             /\ (next_fault w = None -> e = ErrNoDocuments)).
  { intros l. rewrite monitor_eq, updateMasterNodeStatus_eq.
    change (next_fault (set_log l w)) with (next_fault w).
    change (rows (registry (set_log l w))) with (rows (registry w)).
    rewrite Hf. destruct (next_fault w) as [e|]; eexists; split; try done. }
  split.
  - destruct (Hm (log w)) as (e & He & Hn). exists e.
    by destruct w.
  - intros Hs. rewrite Monitor_S, Monitor_body_eq. cbv zeta.
    destruct (Hm (log w ++ [TickBegin])) as (e & He & _).
    change (emit TickBegin w).2 with (set_log (log w ++ [TickBegin]) w).
    rewrite He. simpl. by rewrite Hs.
Qed.

Lemma monitor_unregistered_master_witness :
  monitor svc_m1 world_worker_only
  = (Some ErrNoDocuments, after_fault world_worker_only)
  /\ (Monitor 2 (StopOnError svc_m1) world_worker_only).1 = false.
Proof.
  split.
  - destruct (monitor_unregistered_master svc_m1 world_worker_only 0 eq_refl)
      as [(e & He & Hn) _].
    rewrite He. by rewrite (Hn eq_refl).
  - by apply (monitor_unregistered_master (StopOnError svc_m1)
                                          world_worker_only 1 eq_refl).
Defined.

(** ** The heartbeats of a tick *)

Lemma heartbeats_0 svc st : heartbeats svc 0 st = st.
Proof.
  unfold heartbeats. destruct st as [b s]. simpl.
  destruct b; [done|]. by rewrite app_nil_r.
Qed.

Lemma heartbeats_add svc c1 c2 st :
  heartbeats svc c2 (heartbeats svc c1 st) = heartbeats svc (c1 + c2) st.
Proof.
  unfold heartbeats. destruct st as [b s]. simpl.
  destruct b; simpl; [done|]. by rewrite <- app_assoc, repeat_app.
Qed.

Lemma heartbeats_broken svc c st : broken st <> None -> heartbeats svc c st = st.
Proof. unfold heartbeats. by destruct (broken st). Qed.

Lemma mark_failed_server n w : server (mark_failed n w).2 = server w.
Proof.
  rewrite mark_failed_eq. cbn [snd]. destruct (next_fault w).
  - cbn [snd emit]. by autorewrite with world.
  - apply written_server.
Qed.

(** One iteration tries one heartbeat on the stream under the key of its
    node and leaves the other streams alone. *)
Lemma monitor_node_subs svc n b w k :
  subs (server (monitor_node svc n b w).2) !! k
  = heartbeats svc (if decide (Key n = k) then 1 else 0)
    <$> subs (server w) !! k.
Proof.
  destruct (probe_report n w) as [ev|] eqn:H.
  - rewrite (monitor_node_failed _ _ _ _ _ H), mark_failed_server. simpl.
    destruct (subs (server w) !! k) as [st|] eqn:Hk; [|done]. simpl. f_equal.
    destruct (decide (Key n = k)) as [<-|_]; [|by rewrite heartbeats_0].
    symmetry. apply heartbeats_broken. unfold probe_report in H.
    rewrite Hk in H. by destruct (broken st).
  - rewrite (monitor_node_ok _ _ _ _ H). simpl.
    pose proof H as (st & Hs & Hb)%probe_report_None.
    rewrite (pinged_subs _ _ _ _ Hs Hb).
    destruct (decide (Key n = k)) as [<-|Hne].
    + rewrite lookup_insert_eq, Hs. simpl. unfold heartbeats. by rewrite Hb.
    + rewrite lookup_insert_ne by done.
      destruct (subs (server w) !! k); [|done]. simpl. by rewrite heartbeats_0.
Qed.

Lemma monitor_nodes_subs svc l b w k :
  subs (server (monitor_nodes svc l b w).2) !! k
  = heartbeats svc (length (filter (fun n => Key n = k) l))
    <$> subs (server w) !! k.
Proof.
  revert b w. induction l as [|n l IH]; intros b w.
  - simpl. destruct (subs (server w) !! k); [|done]. simpl.
    by rewrite heartbeats_0.
  - rewrite monitor_nodes_cons, IH, monitor_node_subs, filter_cons.
    destruct (subs (server w) !! k) as [st|]; [|done]. simpl.
    rewrite heartbeats_add. by destruct (decide (Key n = k)).
Qed.

Lemma monitor_subs svc w k :
  subs (server (monitor svc w).2) !! k
  = heartbeats svc (length (filter (fun n => Key n = k) (enumerated svc w)))
    <$> subs (server w) !! k.
Proof.
  unfold enumerated. rewrite monitor_eq.
  pose proof (updateMasterNodeStatus_frame svc w) as (S1 & _).
  destruct (updateMasterNodeStatus svc w) as [[err|] w1]; simpl in S1.
  { simpl. rewrite S1. destruct (subs (server w) !! k); [|done]. simpl.
    by rewrite heartbeats_0. }
  pose proof (GetNodeList_frame false w1) as (S2 & _).
  destruct (GetNodeList false w1) as [[err|nodes] w2]; simpl in S2.
  - assert (E : subs (server w2) !! k
                = heartbeats svc 0 <$> subs (server w) !! k).
    { rewrite S2, S1. destruct (subs (server w) !! k); [|done]. simpl.
      by rewrite heartbeats_0. }
    by destruct (decide (err = ErrNoDocuments)).
  - pose proof (monitor_nodes_subs svc nodes false w2 k) as H.
    rewrite S2, S1 in H.
    by destruct (monitor_nodes svc nodes false w2) as [[|] w3].
Qed.

(** X7. The streams after a tick: every stream of the table is still
    there and no stream has come to it; a healthy stream has gained one
    heartbeat of the master (a PING with the master's key) for every
    enumerated node under its key and nothing else, a broken stream is as
    it was. *)
Theorem monitor_heartbeats (svc : MasterService) (w : World) (k : string) :
  subs (server (monitor svc w).2) !! k
  = heartbeats svc (length (filter (fun n => Key n = k) (enumerated svc w)))
    <$> subs (server w) !! k.
Proof. apply monitor_subs. Qed.

Lemma filter_key_master_comm (k : string) (l : list Node) :
  filter (fun n => Key n = k) (filter (fun n => IsMaster n = false) l)
  = filter (fun n => IsMaster n = false) (filter (fun n => Key n = k) l).
Proof.
  induction l as [|a l IH]; [done|].
  rewrite !filter_cons.
  destruct (decide (IsMaster a = false)), (decide (Key a = k));
    rewrite ?filter_cons, ?decide_True, ?decide_False by done; by rewrite ?IH.
Qed.

(** X8. In a tick that gets to its loop, a worker whose key no other row
    has and whose stream is healthy is sent exactly one heartbeat. *)
Theorem monitor_one_heartbeat (svc : MasterService) (w : World) (r : Node)
    (st : Stream) :
  (updateMasterNodeStatus svc w).1 = None ->
  next_fault (updateMasterNodeStatus svc w).2 = None ->
  filter (fun n => Key n = Key r) (rows (registry w)) = [r] ->
  IsMaster r = false ->
  Key r <> master_key svc ->
  subs (server w) !! Key r = Some st ->
  broken st = None ->
  subs (server (monitor svc w).2) !! Key r
  = Some (mkStream None (sent st ++ [heartbeat svc])).
Proof.
  intros Hu Hl Hr Hm Hk Hs Hb.
  rewrite monitor_subs, Hs. simpl. f_equal.
  assert (E : filter (fun n => Key n = Key r) (enumerated svc w) = [r]).
  { unfold enumerated.
    destruct (updateMasterNodeStatus svc w) as [u w1] eqn:E1.
    simpl in Hu, Hl. subst u.
    pose proof (updateMasterNodeStatus_ok _ _ _ E1) as R1.
    rewrite GetNodeList_eq, Hl, R1, filter_key_master_comm.
    rewrite update_rows_filter by apply go_online_Key. rewrite Hr.
    unfold update_rows. simpl.
    assert (has_key (master_key svc) r = false) as ->
      by (by apply has_key_false).
    by rewrite filter_cons, decide_True. }
  rewrite E. unfold heartbeats. by rewrite Hb.
Qed.

Lemma monitor_one_heartbeat_witness :
  subs (server (monitor svc_m1 world_broken_stream).2) !! "w2"
  = Some (mkStream None [heartbeat svc_m1]).
Proof.
  apply (monitor_one_heartbeat svc_m1 world_broken_stream (worker "w2" 3)
                               (mkStream None []));
    first [reflexivity | discriminate].
Defined.

(** ** What [Register] leaves alone *)

(** What [Register] may have done to the rows, by what it returned. *)
Lemma Register_rows_cases svc w :
  let key := master_key svc in
  let out := Register svc w in
  match out.1 with
  | Some _ =>
      rows (registry out.2) = rows (registry w)
      /\ next_id (registry out.2) = next_id (registry w)
  | None =>
      (find (has_key key) (rows (registry w)) = None
       /\ rows (registry out.2)
          = rows (registry w)
            ++ [fresh_master key (next_id (registry w)) (now w)])
      \/ (exists n, find (has_key key) (rows (registry w)) = Some n
          /\ rows (registry out.2)
             = update_rows key (go_online (now w)) (rows (registry w)))
  end.
Proof.
  intros key out.
  destruct out.1 as [e|] eqn:He.
  - unfold out in *. rewrite Register_eq in *. cbv zeta in *. fold key in He |- *.
    repeat case_match; simplify_eq; simpl in *; autorewrite with world;
      try done; simpl; by autorewrite with world.
  - apply Register_success. unfold out in *.
    by destruct (Register svc w) as [o w']; simpl in *; subst.
Qed.

Lemma Register_server_now svc w :
  server (Register svc w).2 = server w /\ now (Register svc w).2 = now w.
Proof.
  rewrite Register_eq. cbv zeta.
  repeat case_match; simpl; unfold inserted; simpl;
    autorewrite with world; done.
Qed.

(** X10. A [Register] that returns an error has written nothing: the rows
    of the registry and the next id it gives out are what they were. *)
Theorem Register_failure_keeps_rows (svc : MasterService) (w : World) (e : error) :
  (Register svc w).1 = Some e ->
  rows (registry (Register svc w).2) = rows (registry w)
  /\ next_id (registry (Register svc w).2) = next_id (registry w).
Proof.
  intros He. pose proof (Register_rows_cases svc w) as H. cbv zeta in H.
  by rewrite He in H.
Qed.

Lemma Register_failure_keeps_rows_witness :
  let w := world_two_workers [None; Some registry_unavailable] in
  (Register svc_m1 w).1 = Some registry_unavailable
  /\ rows (registry (Register svc_m1 w).2) = rows (registry w).
Proof.
  intros w. split; [reflexivity|].
  by apply (Register_failure_keeps_rows svc_m1 w registry_unavailable eq_refl).
Defined.

(** X11. [Register] touches nothing but the rows under the master's key:
    the server with its subscriptions and the clock are as they were,
    every row under another key is in its place and unchanged, no row is
    removed and at most one is added. *)
Theorem Register_frame (svc : MasterService) (w : World) :
  let out := Register svc w in
  server out.2 = server w
  /\ now out.2 = now w
  /\ (forall i r,
        rows (registry w) !! i = Some r ->
        Key r <> master_key svc ->
        rows (registry out.2) !! i = Some r)
  /\ (length (rows (registry w)) <= length (rows (registry out.2))
      <= S (length (rows (registry w))))%nat.
Proof.
  intros out. destruct (Register_server_now svc w) as [Hs Hn].
  split; [exact Hs|]. split; [exact Hn|].
  pose proof (Register_rows_cases svc w) as H. cbv zeta in H. fold out in H.
  destruct out.1.
  - destruct H as [-> _]. split; [done | lia].
  - destruct H as [[_ ->] | (n & _ & ->)].
    + split.
      * intros i r Hr _. by apply lookup_app_l_Some.
      * rewrite length_app. simpl. lia.
    + split.
      * intros i r Hr Hk. by apply update_rows_other.
      * rewrite update_rows_length. lia.
Qed.

Lemma Register_frame_witness :
  rows (registry (Register svc_m1 world_worker_only).2) !! 0%nat
  = Some (worker "w1" 1).
Proof.
  destruct (Register_frame svc_m1 world_worker_only) as (_ & _ & H & _).
  apply H; [reflexivity | discriminate].
Defined.

Lemma find_has_key_update key f l :
  (forall n, Key (f n) = Key n) ->
  find (has_key key) (update_rows key f l) = None ->
  find (has_key key) l = None.
Proof.
  intros Hf. rewrite !find_has_key_None, update_rows_filter by done.
  intros H. apply (f_equal length) in H. rewrite update_rows_length in H.
  by apply nil_length_inv.
Qed.

(** X12. After a successful [Register] the refresh of the master's row
    cannot fail for want of the row: the master is found, so the refresh
    fails only with an error the registry itself raises, and goes through
    when the registry lets the lookup and the write through. *)
Theorem Register_then_refresh (svc : MasterService) (w w1 : World) :
  Register svc w = (None, w1) ->
  (forall e, (updateMasterNodeStatus svc w1).1 = Some e ->
             Some e ∈ faults (registry w1))
  /\ (next_fault w1 = None -> next_fault (after_fault w1) = None ->
      (updateMasterNodeStatus svc w1).1 = None).
Proof.
  intros H. apply Register_success in H. cbv zeta in H.
  assert (Hfind : find (has_key (master_key svc)) (rows (registry w1)) <> None).
  { destruct H as [[_ ->] | (n & Hn & ->)].
    - rewrite find_has_key_None, filter_key_app_fresh. by destruct (filter _ _).
    - intros Hf. apply find_has_key_update in Hf; [congruence | done]. }
  rewrite updateMasterNodeStatus_eq.
  destruct (find (has_key (master_key svc)) (rows (registry w1))) as [n|];
    [|done].
  split.
  - intros e. destruct (next_fault w1) eqn:F1; simpl.
    + intros [= <-]. by apply next_fault_elem.
    + destruct (next_fault (after_fault w1)) eqn:F2; simpl; [|done].
      intros [= <-]. by apply after_fault_faults, next_fault_elem.
  - intros -> ->. done.
Qed.

Lemma Register_then_refresh_witness :
  (updateMasterNodeStatus svc_m1 (Register svc_m1 world_empty).2).1 = None.
Proof.
  destruct (Register_then_refresh svc_m1 world_empty
                                  (Register svc_m1 world_empty).2 eq_refl)
    as [_ H].
  by apply H.
Defined.

(** ** The errors of [errors/base.go] *)

Lemma NewError_text_not_no_documents p m :
  errors.NewError_text p m <> Error ErrNoDocuments.
Proof.
  unfold errors.NewError_text. simpl. intros H.
  do 29 (destruct p as [|? p]; [simpl in H; discriminate H
                               |simpl in H; injection H as _ H]).
  destruct p; simpl in H; discriminate H.
Qed.

(** X13. An error built by [NewError] never reads like mongo's
    no-documents error, whatever its prefix and message; so when the
    lookup of [Register] fails with such an error, [Register] does not take
    it for absence: it inserts nothing and hands that error back. *)
Theorem NewError_not_taken_for_absence (svc : MasterService) (w : World)
    (prefix : errors.ErrorPrefix) (msg : string) :
  Error (NewError prefix msg) <> Error ErrNoDocuments
  /\ (next_fault w = Some (NewError prefix msg) ->
      (Register svc w).1 = Some (NewError prefix msg)
      /\ rows (registry (Register svc w).2) = rows (registry w)).
Proof.
  assert (H : Error (NewError prefix msg) <> Error ErrNoDocuments)
    by apply NewError_text_not_no_documents.
  split; [exact H|]. intros Hf.
  rewrite Register_eq. cbv zeta. rewrite Hf, decide_False by exact H.
  simpl. by rewrite after_fault_rows.
Qed.

Lemma NewError_not_taken_for_absence_witness :
  let e := NewError errors.ErrorPrefixModel "no documents" in
  (Register svc_m1 (mkWorld (registry_of [] [Some e])
                            (mkServer false None ∅) 0 [])).1 = Some e.
Proof.
  intros e.
  destruct (NewError_not_taken_for_absence
              svc_m1 (mkWorld (registry_of [] [Some e]) (mkServer false None ∅) 0 [])
              errors.ErrorPrefixModel "no documents") as [_ H].
  by apply H.
Defined.

(** X14. Errors of the declared prefixes can be told apart by their text:
    two errors built by [NewError] with prefixes among controller, model,
    filter and http read the same only if prefix and message are the
    same. *)
Theorem NewError_text_inj (p p' : errors.ErrorPrefix) (m m' : string) :
  declared_prefix p -> declared_prefix p' ->
  Error (NewError p m) = Error (NewError p' m') ->
  p = p' /\ m = m'.
Proof.
  unfold declared_prefix, errors.ErrorPrefixController,
    errors.ErrorPrefixModel, errors.ErrorPrefixFilter, errors.ErrorPrefixHttp.
  intros [->|[->|[->| ->]]] [->|[->|[->| ->]]] H;
    simpl in H; unfold errors.NewError_text in H; simpl in H;
    first [discriminate H | split; [reflexivity | by simplify_eq]].
Qed.

Lemma NewError_text_inj_witness :
  errors.ErrorPrefixModel = "model" /\ "not found" = "not found".
Proof.
  apply (NewError_text_inj errors.ErrorPrefixModel "model" "not found" "not found").
  - right. left. reflexivity.
  - right. left. reflexivity.
  - reflexivity.
Defined.

(** ** Settings and construction *)

Lemma calls_snoc l c svc : calls (l ++ [c]) svc = call c (calls l svc).
Proof. unfold calls. by rewrite foldl_app. Qed.

(** X15. No setter switches [stop_on_error] off and none changes the
    configuration service: after any sequence of setter calls the node key
    is what it was, and [stop_on_error] is set exactly when it was set
    before or [StopOnError] is among the calls. *)
Theorem StopOnError_sticks (l : list setter) (svc : MasterService) :
  cfgSvc (calls l svc) = cfgSvc svc
  /\ (stopOnError (calls l svc) = true
      <-> stopOnError svc = true \/ CallStopOnError ∈ l).
Proof.
  induction l as [|c l [IH1 IH2]] using rev_ind.
  - split; [done|]. split; [by left|]. intros [H|H]; [done|].
    by apply elem_of_nil in H.
  - rewrite calls_snoc. split.
    + by destruct c.
    + rewrite elem_of_app, list_elem_of_singleton.
      destruct c; simpl.
      1-3: rewrite IH2; split;
        [ intros [H|H]; [by left | right; by left]
        | intros [H|[H|H]]; [by left | by right | done] ].
      split; [intros _; right; by right | done].
Qed.

Lemma NewMasterService_inr dcp c opts svc :
  NewMasterService dcp c opts = inr svc ->
  let s0 := foldl (fun s (opt : Option) => opt s)
                  (mkMasterService (mkNodeConfigService "") dcp None
                                   (60 * Second) false) opts in
  svc = mkMasterService (resolve_config c (cfgPath s0)) (cfgPath s0)
                        (address s0) (monitorInterval s0) (stopOnError s0).
Proof.
  unfold NewMasterService. repeat case_match; try done. by intros [= <-].
Qed.

(** X16. [ProvideMasterService] with a path that is not empty builds the
    service at that path, whatever the options say: the path is put after
    them, so the configuration path of the service is the given one and
    its configuration service is the one found there.  With the empty path
    it builds what [NewMasterService] builds from the options. *)
Theorem ProvideMasterService_path (DefaultConfigPath path : string)
    (opts : list Option) (c : Container) :
  (path = "" ->
   ProvideMasterService DefaultConfigPath path opts c
   = NewMasterService DefaultConfigPath c opts)
  /\ (forall svc,
        path <> "" ->
        ProvideMasterService DefaultConfigPath path opts c = inr svc ->
        cfgPath svc = path /\ cfgSvc svc = resolve_config c path).
Proof.
  split.
  - intros ->. unfold ProvideMasterService. by rewrite decide_True.
  - intros svc Hp H. unfold ProvideMasterService in H.
    rewrite decide_False in H by done.
    apply NewMasterService_inr in H. cbv zeta in H.
    rewrite foldl_app in H. simpl in H. by subst svc.
Qed.

Lemma ProvideMasterService_path_witness :
  exists svc,
    ProvideMasterService "config.json" "other.json"
                         [WithConfigPath "first.json"] container_ok = inr svc
    /\ cfgPath svc = "other.json".
Proof.
  eexists. split; [reflexivity|].
  destruct (ProvideMasterService_path "config.json" "other.json"
              [WithConfigPath "first.json"] container_ok) as [_ H].
  by apply (H _ ltac:(discriminate) eq_refl).
Defined.

(** ** The process of [Start] *)

Lemma quit_step svc c p : quit (step svc c p) = quit p || is_signal c.
Proof.
  destruct c; simpl.
  - rewrite orb_false_r.
    destruct (main p) eqn:Hm; simpl; try done;
      try (unfold bind; simpl; by repeat case_match).
  - rewrite orb_false_r. destruct (monitor_thread p); try done.
    by destruct (Monitor_body svc (world p)).
  - by rewrite orb_true_r.
Qed.

Lemma quit_run svc sched p :
  quit (run svc sched p) = quit p || existsb is_signal sched.
Proof.
  revert p. induction sched as [|c sched IH]; intros p; simpl.
  - by rewrite orb_false_r.
  - fold (run svc sched (step svc c p)). rewrite IH, quit_step.
    by rewrite orb_assoc.
Qed.

Lemma existsb_signal sched : existsb is_signal sched = true <-> Signal ∈ sched.
Proof.
  rewrite existsb_exists. split.
  - intros (c & Hin & Hc). destruct c; try done. by apply list_elem_of_In.
  - intros Hin. exists Signal. split; [by apply list_elem_of_In | done].
Qed.

Lemma run_unsignalled svc sched p :
  quit p = false -> Signal ∉ sched -> quit (run svc sched p) = false.
Proof.
  intros Hq Hs. rewrite quit_run, Hq. simpl.
  destruct (existsb is_signal sched) eqn:E; [|done].
  by apply existsb_signal in E.
Qed.

Lemma unsignalled_main p :
  start_inv p -> quit p = false ->
  (WaitReturned ∉ log (world p)) /\ main p <> AtStop /\ main p <> Returned.
Proof.
  intros [_ Ph _ Q] Hq.
  assert (Hw : WaitReturned ∉ log (world p)).
  { intros Hin. apply Q in Hin. congruence. }
  split; [exact Hw|]. split.
  - intros Hm. rewrite Hm in Ph. by destruct Ph.
  - intros Hm. rewrite Hm in Ph. destruct Ph as (_ & l1 & l2 & E & _).
    apply Hw. rewrite E. set_solver.
Qed.

(** X17. Without the quit signal [Start] does not get past [Wait]: in a
    run whose schedule holds no signal, however long and whatever the
    monitor goroutine does, [Wait] has not returned and the main goroutine
    has neither reached [Stop] nor returned. *)
Theorem Start_waits_for_signal (svc : MasterService) (w : World)
    (sched : list choice) :
  Signal ∉ sched ->
  let p := run svc sched (boot w) in
  quit p = false
  /\ (WaitReturned ∉ log (world p))
  /\ main p <> AtStop
  /\ main p <> Returned.
Proof.
  intros Hs p.
  assert (Hq : quit p = false) by (by apply run_unsignalled).
  split; [exact Hq|].
  apply unsignalled_main; [|exact Hq].
  apply run_inv, boot_inv.
Qed.

Lemma Start_waits_for_signal_witness :
  main (run svc_m1 [RunMain; RunMain; RunMain; RunMain; RunMonitor; RunMain]
            (boot world_empty)) <> AtStop
  /\ main (run svc_m1 [RunMain; RunMain; RunMain; RunMain; RunMonitor; RunMain]
               (boot world_empty)) <> Returned.
Proof.
  destruct (Start_waits_for_signal
              svc_m1 world_empty
              [RunMain; RunMain; RunMain; RunMain; RunMonitor; RunMain])
    as (_ & _ & H1 & H2).
  - intros H. repeat (apply elem_of_cons in H as [H|H]; [discriminate H|]).
    by apply elem_of_nil in H.
  - split; [exact H1 | exact H2].
Defined.

Lemma server_Start_cases w :
  (exists e, start_fault (server w) = Some e
             /\ (server_Start w).1 = Some e
             /\ server (server_Start w).2 = server w)
  \/ (start_fault (server w) = None
      /\ (server_Start w).1 = None
      /\ server (server_Start w).2 = mkServer true None (subs (server w))).
Proof.
  unfold server_Start, bind, emit. cbn beta iota.
  autorewrite with world.
  destruct (start_fault (server w)) as [e|] eqn:E; simpl.
  - left. by exists e.
  - by right.
Qed.

Lemma boot_early w : early_inv w (boot w).
Proof. done. Qed.

Lemma step_early svc w0 c p :
  start_inv p -> early_inv w0 p -> early_inv w0 (step svc c p).
Proof.
  intros [O Ph Sp Q] E. destruct c.
  - unfold early_inv in *. unfold step.
    destruct (main p) eqn:Hm.
    + (* svc.server.Start() *)
      destruct Ph as [L N]. simpl. unfold bind.
      pose proof (server_Start_log (world p)) as L'. rewrite L in L'.
      simpl in L'.
      destruct (server_Start_cases (world p)) as [(e & F & R & S)|(F & R & S)];
        rewrite E in F, S;
        destruct (server_Start (world p)) as [r w']; simpl in *; subst r;
        simpl; rewrite L'.
      * split; [set_solver|]. left. split; [done|]. split; [done|]. set_solver.
      * split; [done|]. split; [done|]. set_solver.
    + (* svc.Register() *)
      destruct Ph as [L N]. destruct E as (F & S & NS). simpl. unfold bind.
      simpl.
      pose proof (Register_log
                    svc (set_log (log (world p) ++ [RegisterBegin]) (world p)))
        as (l & L' & Pl).
      pose proof (Register_server_now
                    svc (set_log (log (world p) ++ [RegisterBegin]) (world p)))
        as [S' _].
      destruct (Register svc (set_log _ _)) as [r w']. simpl in L', S'.
      rewrite L in L'. simpl in L'.
      assert (ServerStop ∉ l)
        by (intros Hin; rewrite Forall_forall in Pl; by apply (Pl _ Hin)).
      rewrite S in S'.
      destruct r as [e|]; simpl; rewrite L'.
      * split; [set_solver|]. right. split; [done|]. split; [done|].
        set_solver.
      * split; [done|]. split; [done|]. set_solver.
    + done.
    + by destruct (quit p); simpl; rewrite ?Hm.
    + simpl. by destruct (quit p).
    + simpl. rewrite Hm. done.
    + simpl. rewrite Hm. done.
  - unfold step. destruct (monitor_thread p) eqn:Ht; [exact E| |exact E].
    unfold early_inv in *.
    destruct (Monitor_body svc (world p)) as [again w']. simpl.
    destruct (main p) eqn:Hm; try done; exfalso; clear -Ph Ht; naive_solver.
  - exact E.
Qed.

Lemma run_early svc w0 sched p :
  start_inv p -> early_inv w0 p -> early_inv w0 (run svc sched p).
Proof.
  revert p. induction sched as [|c sched IH]; intros p H E; [done|].
  simpl. apply IH; [by apply step_inv | by apply step_early].
Qed.

(** X18. A [Start] that panics never stops the server.  Either the
    server's own start failed, and then the server is untouched and
    [Register] was not tried; or [Register] failed, and then the server has
    been started and is left running. *)
Theorem Start_panic_leaves_server (svc : MasterService) (w : World)
    (sched : list choice) (e : error) :
  main (run svc sched (boot w)) = Panicked e ->
  (ServerStop ∉ log (world (run svc sched (boot w))))
  /\ ((start_fault (server w) = Some e
       /\ server (world (run svc sched (boot w))) = server w
       /\ (RegisterBegin ∉ log (world (run svc sched (boot w)))))
      \/ (start_fault (server w) = None
          /\ running (server (world (run svc sched (boot w)))) = true
          /\ RegisterEnd (Some e) ∈ log (world (run svc sched (boot w))))).
Proof.
  intros Hm.
  pose proof (run_early svc w sched (boot w) (boot_inv w) (boot_early w)) as E.
  unfold early_inv in E. rewrite Hm in E.
  destruct E as (NS & [(F & S & R)|(F & S & R)]).
  - split; [done|]. left. done.
  - split; [done|]. right. rewrite S. done.
Qed.

Lemma Start_panic_leaves_server_witness :
  ServerStop ∉ log (world (run svc_m1 [RunMain; RunMain]
                                (boot world_registry_down))).
Proof.
  destruct (Start_panic_leaves_server
              svc_m1 world_registry_down [RunMain; RunMain]
              registry_unavailable) as [H _].
  - reflexivity.
  - exact H.
Defined.

Lemma monitor_running svc w :
  running (server (monitor svc w).2) = running (server w).
Proof.
  rewrite monitor_eq.
  pose proof (updateMasterNodeStatus_frame svc w) as (S1 & _).
  destruct (updateMasterNodeStatus svc w) as [[err|] w1]; simpl in S1.
  { simpl. by rewrite S1. }
  pose proof (GetNodeList_frame false w1) as (S2 & _).
  destruct (GetNodeList false w1) as [[err|nodes] w2]; simpl in S2.
  - destruct (decide (err = ErrNoDocuments)); simpl; autorewrite with world;
      congruence.
  - pose proof (advances_monitor_nodes svc nodes false w2) as [_ _ _ _ _ R].
    destruct (monitor_nodes svc nodes false w2) as [[|] w3]; simpl in *;
      autorewrite with world; congruence.
Qed.

Lemma monitor_down svc w : down w -> down (monitor svc w).2.
Proof.
  intros [R S]. split.
  - by rewrite monitor_running.
  - apply map_eq. intros k. rewrite monitor_subs, S. by rewrite !lookup_empty.
Qed.

Lemma Stop_down svc w : down (Stop svc w).2.
Proof. unfold Stop, bind. simpl. by split. Qed.

Lemma Monitor_body_stop svc w :
  let r := Monitor_body svc w in
  (r.1 = false /\ stopOnError svc = true /\ down r.2 /\ ServerStop ∈ log r.2)
  \/ (r.1 = true /\ (down w -> down r.2)
      /\ (ServerStop ∈ log r.2 -> ServerStop ∈ log w)).
Proof.
  rewrite Monitor_body_eq. cbv zeta.
  pose proof (monitor_down svc (emit TickBegin w).2) as D.
  destruct (monitor_quiet svc (emit TickBegin w).2) as (_ & l & L & F).
  simpl in L.
  assert (Hl : ServerStop ∉ l).
  { intros Hin. rewrite Forall_forall in F. by apply (F _ Hin). }
  destruct (monitor svc _) as [[e|] w1]; cbn [fst snd] in *.
  - destruct (stopOnError svc) eqn:So; cbn [fst snd].
    + left. split; [done|]. split; [done|]. split; [apply Stop_down|].
      rewrite Stop_log. set_solver.
    + right. split; [done|]. split.
      * intros H. simpl. by apply D.
      * simpl. rewrite L. set_solver.
  - right. split; [done|]. split.
    + intros H. simpl. by apply D.
    + simpl. rewrite L. set_solver.
Qed.

Lemma boot_stopped svc w : stopped_inv svc (boot w).
Proof. split; simpl; [set_solver | done]. Qed.

Lemma step_stopped svc c p :
  start_inv p -> stopped_inv svc p -> stopped_inv svc (step svc c p).
Proof.
  intros [O Ph Sp Q] [D X]. destruct c.
  - unfold stopped_inv, step.
    destruct (main p) eqn:Hm.
    + destruct Ph as [L N]. simpl. unfold bind.
      pose proof (server_Start_log (world p)) as L'. rewrite L in L'.
      simpl in L'.
      destruct (server_Start (world p)) as [[e|] w']; simpl in *; rewrite L';
        (split; [set_solver | congruence]).
    + destruct Ph as [L N]. simpl. unfold bind. simpl.
      pose proof (Register_log
                    svc (set_log (log (world p) ++ [RegisterBegin]) (world p)))
        as (l & L' & Pl).
      destruct (Register svc (set_log _ _)) as [r w']. simpl in L'.
      rewrite L in L'. simpl in L'.
      assert (ServerStop ∉ l)
        by (intros Hin; rewrite Forall_forall in Pl; by apply (Pl _ Hin)).
      destruct r as [e|]; simpl; rewrite L';
        (split; [set_solver | congruence]).
    + simpl. split; [|done]. intros H. apply D. set_solver.
    + destruct (quit p); simpl; [|by rewrite ?Hm].
      split.
      * intros H. apply D. set_solver.
      * intros H. destruct (X H). split; [done | set_solver].
    + replace (match quit p with true | _ => _ end)
        with (Some (Stop svc;; ret Returned)) by (by destruct (quit p)).
      unfold bind. simpl. split.
      * intros _. by split.
      * intros H. destruct (X H). split; [done | set_solver].
    + simpl. done.
    + simpl. done.
  - unfold stopped_inv, step.
    destruct (monitor_thread p) eqn:Ht;
      [split; [exact D | simpl; rewrite Ht; exact X] |
       | split; [exact D | simpl; rewrite Ht; exact X]].
    pose proof (Monitor_body_stop svc (world p)) as H. cbv zeta in H.
    destruct (Monitor_body svc (world p)) as [again w']. simpl in *.
    destruct H as [(-> & So & Dn & St)|(-> & Dn & St)]; simpl.
    + done.
    + split; [|done]. intros H. apply Dn, D, St, H.
  - done.
Qed.

Lemma run_stopped svc sched p :
  start_inv p -> stopped_inv svc p -> stopped_inv svc (run svc sched p).
Proof.
  revert p. induction sched as [|c sched IH]; intros p H E; [done|].
  simpl. apply IH; [by apply step_inv | by apply step_stopped].
Qed.

(** X19. A stop is final.  In every run of [Start], once the server has
    been stopped, by [Start] itself or by the monitor loop, it is not
    running and its table of subscriptions is empty, whatever ticks the
    monitor loop has gone through since. *)
Theorem Stop_is_final (svc : MasterService) (w : World) (sched : list choice) :
  ServerStop ∈ log (world (run svc sched (boot w))) ->
  running (server (world (run svc sched (boot w)))) = false
  /\ subs (server (world (run svc sched (boot w)))) = ∅.
Proof.
  intros H.
  destruct (run_stopped svc sched (boot w) (boot_inv w) (boot_stopped svc w))
    as [D _].
  exact (D H).
Qed.

Lemma Stop_is_final_witness :
  running (server (world (run svc_m1 sched_tick_after_stop (boot world_empty))))
  = false.
Proof.
  destruct (Stop_is_final svc_m1 world_empty sched_tick_after_stop) as [H _].
  - apply list_elem_of_In. vm_compute. tauto.
  - exact H.
Defined.

(** X20. A monitor loop that has returned has stopped the server, and
    [Start] does not notice: [stop_on_error] is set, the server is down,
    and as long as no quit signal has come the main goroutine is still
    blocked in [Wait]. *)
Theorem Start_outlives_monitor (svc : MasterService) (w : World)
    (sched : list choice) :
  monitor_thread (run svc sched (boot w)) = Exited ->
  stopOnError svc = true
  /\ ServerStop ∈ log (world (run svc sched (boot w)))
  /\ running (server (world (run svc sched (boot w)))) = false
  /\ subs (server (world (run svc sched (boot w)))) = ∅
  /\ (Signal ∉ sched -> main (run svc sched (boot w)) = AtWait).
Proof.
  intros Hx.
  destruct (run_stopped svc sched (boot w) (boot_inv w) (boot_stopped svc w))
    as [D X].
  destruct (X Hx) as [So St]. destruct (D St) as [R S].
  split; [exact So|]. split; [exact St|]. split; [exact R|].
  split; [exact S|]. intros Hs.
  pose proof (run_inv svc sched (boot w) (boot_inv w)) as Hinv.
  destruct (unsignalled_main _ Hinv (run_unsignalled svc sched (boot w)
                                       eq_refl Hs)) as (_ & H1 & H2).
  destruct Hinv as [_ Ph _ _]. rewrite Hx in Ph.
  destruct (main (run svc sched (boot w))); try done;
    exfalso; clear -Ph; naive_solver.
Qed.

Lemma Start_outlives_monitor_witness :
  main (run (StopOnError svc_m1) [RunMain; RunMain; RunMain; RunMonitor]
            (boot world_worker_only)) = AtWait.
Proof.
  destruct (Start_outlives_monitor
              (StopOnError svc_m1) world_worker_only
              [RunMain; RunMain; RunMain; RunMonitor]) as (_ & _ & _ & _ & H).
  - reflexivity.
  - apply H. intros Hin.
    repeat (apply elem_of_cons in Hin as [Hin|Hin]; [discriminate Hin|]).
    by apply elem_of_nil in Hin.
Defined.
